(** * Verification of the climate-downloads preprocessing scripts

    Shallow embedding of the logic of [download_cmip6.ipynb] (longitude
    normaliser [fix_lons], catalog query construction, overwrite gate,
    time subsetting, duplicate-coordinate compensation, pressure-level
    subsetting) and of the ERA5 chunked download notebook.

    Python exceptions are modelled by the [result] type below; a run that
    raises is [Exc e].  Longitudes are float64 values, held as the
    rationals they denote, with numpy's rounded [+], [-], [%] and [//]
    written out (section Float64 arithmetic). *)

From Stdlib Require Import String Ascii QArith Qabs Qround Qpower Qreduction Lqa.
From Stdlib Require Import ZArith List Bool Lia DecimalString Permutation.
Import ListNotations.
Open Scope Z_scope.

(* ------------------------------------------------------------------ *)
(** ** Python exceptions *)

Inductive py_exc :=
| IndexError
| KeyError
| TypeError
| NameError
| FileNotFoundError
| PermissionError
| OSError.

Inductive result (A : Type) :=
| Ok : A -> result A
| Exc : py_exc -> result A.
Arguments Ok {A} _.
Arguments Exc {A} _.

Definition bind {A B} (m : result A) (k : A -> result B) : result B :=
  match m with
  | Ok a => k a
  | Exc e => Exc e
  end.

Notation "x <- m ;; k" := (bind m (fun x => k))
  (at level 61, m at next level, right associativity).

(** [xs[i]] on a Python list / numpy array. *)
Definition py_index {A} (xs : list A) (i : nat) : result A :=
  match nth_error xs i with
  | Some a => Ok a
  | None => Exc IndexError
  end.

(** [arr.nonzero()[0]]: the indices at which a boolean array is true. *)
Fixpoint nonzero_from (i : nat) (m : list bool) : list nat :=
  match m with
  | [] => []
  | true :: m' => i :: nonzero_from (S i) m'
  | false :: m' => nonzero_from (S i) m'
  end.

Definition nonzero (m : list bool) : list nat := nonzero_from 0 m.

(* ------------------------------------------------------------------ *)
(** ** Float64 arithmetic

    A float64 value is held as the rational number it denotes.  [round64]
    rounds a rational to the nearest float64 (ties to even), with the
    subnormal range down to [2^-1074]; overflow to [inf] is not modelled
    (every value in this development is far below [2^1024]).  The numpy
    operations used on coordinates follow [npy_divmod] of numpy's
    [npy_math]: [fmod] is exact, every other operation is rounded. *)

Open Scope Q_scope.

Definition P2 (e : Z) : Q := Qpower (2 # 1) e.

(** [mag x = k] with [2^(k-1) <= x < 2^k], for [x > 0]. *)
Definition mag (x : Q) : Z :=
  let k := (Z.log2 (Qnum x) - Z.log2 (Zpos (Qden x)))%Z in
  if Qle_bool (P2 k) x then (k + 1)%Z else k.

(** Rounding to an integer, ties to even. *)
Definition rne (x : Q) : Z :=
  let f := Qfloor x in
  let d := x - inject_Z f in
  if Qle_bool d (1 # 2) then
    if Qle_bool (1 # 2) d then (if Z.even f then f else f + 1)%Z else f
  else (f + 1)%Z.

(** The exponent of the last mantissa bit of a float64 near [a > 0]:
    53-bit mantissa, least exponent [-1074]. *)
Definition fexp (a : Q) : Z := Z.max (mag a - 53) (-1074).

Definition round_pos (a : Q) : Q :=
  let e := fexp a in inject_Z (rne (a / P2 e)) * P2 e.

Definition round64 (x : Q) : Q :=
  Qred (if Qle_bool 0 x then round_pos x else - round_pos (- x)).

(** [x] is a float64 value. *)
Definition is_double (x : Q) : bool := Qeq_bool (round64 x) x.

Definition Qlt_bool (x y : Q) : bool := negb (Qle_bool y x).

(** C [trunc] and [fmod] (exact on float64 values). *)
Definition c_trunc (q : Q) : Z :=
  if Qle_bool 0 q then Qfloor q else (- Qfloor (- q))%Z.

Definition c_fmod (a b : Q) : Q := Qred (a - b * inject_Z (c_trunc (a / b))).

(** The last step of [npy_divmod]:
    [if (div) { floordiv = npy_floor(div);
                if (div - floordiv > 0.5) floordiv += 1.0; }
     else floordiv = npy_copysign(0, a/b);] *)
Definition floordiv_of_div (div : Q) : Q :=
  if Qeq_bool div 0 then 0 else
  let f := inject_Z (Qfloor div) in
  if Qlt_bool (1 # 2) (round64 (div - f)) then round64 (f + 1) else f.

(** [npy_divmod(a, b, &mod)] for [b != 0]: the floor quotient and the
    remainder.
    [mod = npy_fmod(a, b); div = (a - mod) / b;
     if (mod) { if ((b < 0) != (mod < 0)) { mod += b; div -= 1.0; } }
     else mod = npy_copysign(0, b);] *)
Definition npy_divmod (a b : Q) : Q * Q :=
  let m := c_fmod a b in
  let div := round64 (round64 (a - m) / b) in
  let '(div, m) :=
    if negb (Qeq_bool m 0) && xorb (Qlt_bool b 0) (Qlt_bool m 0)
    then (round64 (div - 1), round64 (m + b)) else (div, m) in
  (floordiv_of_div div, m).

(** [a // b] on float64 arrays ([np.floor_divide]); [None] is the [inf] or
    [nan] of a division by zero. *)
Definition np_floor_divide (a b : Q) : option Q :=
  if Qeq_bool b 0 then None else Some (fst (npy_divmod a b)).

(** [a % b] on float64 arrays ([np.remainder]), for [b != 0]. *)
Definition np_remainder (a b : Q) : Q := snd (npy_divmod a b).

Close Scope Q_scope.

(* ------------------------------------------------------------------ *)
(** ** [fix_lons] *)

(** A grid along its longitude dimension: one column per longitude,
    holding the float64 longitude coordinate and the data at that
    longitude ([ds.roll(..., roll_coords=True)] moves both together). *)
Definition grid (A : Type) := list (Q * A).

Definition lons {A} (g : grid A) : list Q := map fst g.

(** [ds.assign_coords(lon = f(ds.lon))] *)
Definition assign_lon {A} (f : Q -> Q) (g : grid A) : grid A :=
  map (fun '(l, a) => (f l, a)) g.

(** [ds.roll(lon=k, roll_coords=True)]: element [i] moves to
    [(i + k) mod n], i.e. [np.roll]. *)
Definition roll {A} (k : Z) (xs : list A) : list A :=
  let n := length xs in
  match n with
  | O => xs
  | _ =>
      let s := Z.to_nat (k mod Z.of_nat n) in
      skipn (n - s) xs ++ firstn (n - s) xs
  end.

Record subset_params := {
  lon_range : Z;
  lon_origin : Q
}.

(** [((ds.lon + 180) % 360) - 180], element-wise on float64. *)
Definition lon_to_180 (l : Q) : Q :=
  round64 (np_remainder (round64 (l + 180)%Q) 360 - 180)%Q.

(** [ds.lon % 360], element-wise on float64. *)
Definition lon_to_360 (l : Q) : Q := np_remainder l 360.

(** [ds.lon // lon_origin == 1], element-wise.  A division by zero gives
    [inf]/[nan] (with a warning), never [1]. *)
Definition origin_match (o v : Q) : bool :=
  match np_floor_divide v o with
  | Some f => Qeq_bool f 1
  | None => false
  end.

Definition fix_lons {A} (g : grid A) (sp : subset_params) : result (grid A) :=
  if lon_range sp =? 180 then
    (* if any (ds.lon>180): ds.lon = ((ds.lon + 180) % 360) - 180 *)
    let g1 := if existsb (fun l => Qlt_bool 180 l) (lons g)
              then assign_lon lon_to_180 g
              else g in
    (* if ds.lon[0] > -175: roll by sizes['lon'] // 2 *)
    l0 <- py_index (lons g1) 0 ;;
    if Qlt_bool (-175) l0
    then Ok (roll (Z.of_nat (length g1) / 2) g1)
    else Ok g1
  else if lon_range sp =? 360 then
    let g1 := assign_lon lon_to_360 g in
    i <- py_index (nonzero (map (origin_match (lon_origin sp)) (lons g1))) 0 ;;
    Ok (roll (- Z.of_nat i) g1)
  else Ok g.

(** [ds_tmp.lon // lon_origin == 0], element-wise (no match when dividing by zero). *)
Definition floor_div_is0 (o v : Q) : bool :=
  match np_floor_divide v o with
  | Some f => Qeq_bool f 0
  | None => false
  end.

(** [if np.abs(ds_tmp.lon[0]-subset_params['lon_origin'])>5:
       ds_tmp = ds_tmp.isel(lon=np.arange(0,(ds_tmp.lon // lon_origin == 0).values.nonzero()[0][0]))] *)
Definition truncate_lons {A} (g : grid A) (sp : subset_params) : result (grid A) :=
  l0 <- py_index (lons g) 0 ;;
  if Qlt_bool 5 (Qabs (round64 (l0 - lon_origin sp)%Q)) then
    i <- py_index (nonzero (map (floor_div_is0 (lon_origin sp)) (lons g))) 0 ;;
    Ok (firstn i g)
  else Ok g.

(** [ds_tmp = fix_lons(ds, subset_params)] followed by the truncation. *)
Definition lon_prepare {A} (g : grid A) (sp : subset_params) : result (grid A) :=
  g1 <- fix_lons g sp ;;
  truncate_lons g1 sp.

(* ------------------------------------------------------------------ *)
(** ** Catalog query construction ([subset_query]) *)

Open Scope string_scope.

(** A Python dict with string keys and values, in insertion order. *)
Definition dict := list (string * string).

(** [d[k]] *)
Definition dict_get (d : dict) (k : string) : result string :=
  match find (fun kv => String.eqb (fst kv) k) d with
  | Some (_, v) => Ok v
  | None => Exc KeyError
  end.

Fixpoint map_result {A B} (f : A -> result B) (xs : list A) : result (list B) :=
  match xs with
  | [] => Ok []
  | x :: xs' => y <- f x ;; ys <- map_result f xs' ;; Ok (y :: ys)
  end.

(** [len(np.unique(vs)) == 1] *)
Definition all_same (vs : list string) : bool :=
  match vs with
  | [] => false
  | v :: vs' => forallb (String.eqb v) vs'
  end.

(** The value returned by [operator.itemgetter( *idx)(seq)]: the item itself
    for one index, a tuple for several. *)
Inductive py_val :=
| PyStr (s : string)
| PyTuple (xs : list string).

Definition itemgetter (idx : list nat) (keys : list string) : result py_val :=
  match idx with
  | [] => Exc TypeError   (* itemgetter expected 1 argument, got 0 *)
  | [i] => k <- py_index keys i ;; Ok (PyStr k)
  | _ => ks <- map_result (py_index keys) idx ;; Ok (PyTuple ks)
  end.

(** [for k in v]: a string iterates over its characters. *)
Definition py_iter (v : py_val) : list string :=
  match v with
  | PyStr s => map (fun c => String c EmptyString) (list_ascii_of_string s)
  | PyTuple xs => xs
  end.

(** [k + " == '" + v + "'"] *)
Definition eq_pred (k v : string) : string := k ++ " == '" ++ v ++ "'".

(** [' or '.join([k+" == '"+data_params[k]+"'" for data_params in data_params_all])] *)
Definition or_group (data_params_all : list dict) (k : string) : result string :=
  ps <- map_result (fun dp => v <- dict_get dp k ;; Ok (eq_pred k v)) data_params_all ;;
  Ok (String.concat " or " ps).

Definition build_subset_query (data_params_all : list dict) : result string :=
  d0 <- py_index data_params_all 0 ;;
  let keys := map fst d0 in
  source_calls <- map_result
    (fun k => vs <- map_result (fun x => dict_get x k) data_params_all ;; Ok (all_same vs))
    keys ;;
  let common := nonzero source_calls in
  let varying := nonzero (map negb source_calls) in
  ig <- itemgetter common keys ;;
  parts <- map_result (fun k => v <- dict_get d0 k ;; Ok (eq_pred k v)) (py_iter ig) ;;
  let subset_query := String.concat " and " parts in
  match varying with
  | [] => Ok subset_query
  | [i] =>
      (* for k in [itemgetter(i)(keys)] *)
      k <- py_index keys i ;;
      g <- or_group data_params_all k ;;
      Ok (subset_query ++ " and (" ++ String.concat ") and (" [g] ++ ")")
  | _ =>
      ig2 <- itemgetter varying keys ;;
      gs <- map_result (or_group data_params_all) (py_iter ig2) ;;
      Ok (subset_query ++ " and (" ++ String.concat ") and (" gs ++ ")")
  end.

(** The query as the parameter resolver is specified: the AND of one
    equality per key common to the batch and one parenthesised OR group
    per varying key (reference for comparison with [build_subset_query]). *)
Definition spec_subset_query (data_params_all : list dict) : option string :=
  match data_params_all with
  | [] => None
  | d0 :: _ =>
      let keys := map fst d0 in
      let vals k := map (fun dp => match dict_get dp k with Ok v => v | Exc _ => "" end)
                        data_params_all in
      let common := filter (fun k => all_same (vals k)) keys in
      let varying := filter (fun k => negb (all_same (vals k))) keys in
      Some (String.concat " and "
              (map (fun k => eq_pred k (hd "" (vals k))) common ++
               map (fun k => "(" ++ String.concat " or " (map (eq_pred k) (vals k)) ++ ")") varying))
  end.

Definition data_params_all_repo : list dict :=
  [ [("experiment_id","historical");("table_id","day");("variable_id","pr");("member_id","r1i1p1f1")];
    [("experiment_id","ssp370");("table_id","day");("variable_id","pr");("member_id","r1i1p1f1")];
    [("experiment_id","ssp585");("table_id","day");("variable_id","pr");("member_id","r1i1p1f1")];
    [("experiment_id","historical");("table_id","day");("variable_id","tas");("member_id","r1i1p1f1")];
    [("experiment_id","ssp370");("table_id","day");("variable_id","pr");("member_id","r1i1p1f1")];
    [("experiment_id","ssp585");("table_id","day");("variable_id","tas");("member_id","r1i1p1f1")] ].

(* ------------------------------------------------------------------ *)
(** ** Output files and the overwrite gate (main processing cell) *)

(** Observable effects of the processing loop. *)
Inductive effect :=
| Warn (msg : string)                 (* warnings.warn / print *)
| Remove (p : string)                 (* os.remove *)
| LoadGrid                            (* xr.open_zarr: the network load *)
| Mkdir (d : string)                  (* os.mkdir *)
| WriteNc (p : string)                (* ds_tmp.to_netcdf(p) *)
| Retrieve (years : list Z).          (* c.retrieve: an ERA5 request *)

(** The paths present on disk. *)
Definition disk := list string.

Definition path_exists (fs : disk) (p : string) : bool :=
  existsb (String.eqb p) fs.

Definition os_remove (p : string) (fs : disk) : result disk :=
  if path_exists fs p then Ok (filter (fun q => negb (String.eqb p q)) fs)
  else Exc FileNotFoundError.

(** [for subset_params ...: if path_exists[..]: os.remove(..); warn]
    (only reached with [overwrite] set and some path existing). *)
Fixpoint remove_existing (outs : list (string * bool)) (fs : disk)
  : result (list effect * disk) :=
  match outs with
  | [] => Ok ([], fs)
  | (p, e) :: rest =>
      if e then
        fs1 <- os_remove p fs ;;
        r <- remove_existing rest fs1 ;;
        Ok (Remove p :: Warn "files deleted (OVERWRITE=TRUE)" :: fst r, snd r)
      else remove_existing rest fs
  end.

(** The second loop over [subset_params_all]: skip an existing file
    unless [overwrite], create the model directory if needed, write. *)
Fixpoint save_subsets (overwrite : bool) (dir : string)
         (outs : list (string * bool)) (fs : disk) : list effect * disk :=
  match outs with
  | [] => ([], fs)
  | (p, e) :: rest =>
      if negb overwrite && e then
        let r := save_subsets overwrite dir rest fs in
        (Warn (p ++ " already exists; skipped.") :: fst r, snd r)
      else
        let '(mk, fs1) := if path_exists fs dir then ([], fs)
                          else ([Mkdir dir], dir :: fs) in
        let r := save_subsets overwrite dir rest (p :: fs1) in
        ((mk ++ WriteNc p :: Warn (p ++ " processed!") :: fst r)%list, snd r)
  end.

(** One iteration of [for url in cmip6_sub.zstore.values] for the output
    paths [output_fns] of the subset specs ([dir] is the model directory,
    [label] the dataset description used in the warnings). *)
Definition process_url (overwrite : bool) (dir label : string)
           (output_fns : list string) (fs : disk) : result (list effect * disk) :=
  let path_exists_l := map (path_exists fs) output_fns in
  let outs := combine output_fns path_exists_l in
  if negb overwrite && forallb (fun b => b) path_exists_l then
    Ok ([Warn ("All files already created for " ++ label ++ ", skipped.")], fs)
  else
    r1 <- (if existsb (fun b => b) path_exists_l then
             if overwrite then remove_existing outs fs else Ok ([], fs)
           else Ok ([], fs)) ;;
    let r2 := save_subsets overwrite dir outs (snd r1) in
    Ok ((fst r1 ++ LoadGrid :: fst r2)%list, snd r2).

Definition writes (tr : list effect) : list string :=
  flat_map (fun e => match e with WriteNc p => [p] | _ => [] end) tr.

Definition removes (tr : list effect) : list string :=
  flat_map (fun e => match e with Remove p => [p] | _ => [] end) tr.

Definition loads (tr : list effect) : nat :=
  length (filter (fun e => match e with LoadGrid => true | _ => false end) tr).

(* ------------------------------------------------------------------ *)
(** ** [re.sub] with a literal pattern *)

(** [re.sub(pat, rep, s)] for a non-empty pattern without regex
    metacharacters: scan left to right, replace each non-overlapping
    occurrence.  [skip] counts the characters still consumed by the last
    match. *)
Fixpoint re_sub_go (pat rep : string) (skip : nat) (s : string) : string :=
  match s with
  | EmptyString => EmptyString
  | String c rest =>
      match skip with
      | S k => re_sub_go pat rep k rest
      | O =>
          if String.prefix pat s
          then rep ++ re_sub_go pat rep (String.length pat - 1) rest
          else String c (re_sub_go pat rep 0 rest)
      end
  end.

Definition re_sub (pat rep s : string) : string := re_sub_go pat rep 0 s.

(* ------------------------------------------------------------------ *)
(** ** Output paths (main processing cell) *)

(** [s.split(sep)] for a one-character separator. *)
Fixpoint py_split (sep : ascii) (s : string) : list string :=
  match s with
  | EmptyString => [""]
  | String c s' =>
      let r := py_split sep s' in
      if Ascii.eqb c sep then "" :: r
      else match r with
           | h :: t => String c h :: t
           | [] => [String c ""]
           end
  end.

(** A subset spec as used by the output names: [subset_params['time']]
    (keyed by experiment) and [subset_params['fn_suffix']]. *)
Record cmip6_subset := {
  sp_time : list (string * list string);
  sp_fn_suffix : string
}.

(** [m[k]] on a dict with values of type [A]. *)
Definition assoc_get {A} (m : list (string * A)) (k : string) : result A :=
  match find (fun kv => String.eqb (fst kv) k) m with
  | Some (_, v) => Ok v
  | None => Exc KeyError
  end.

(** [cfg.lpaths['raw_data_dir']+url.split('/')[5]+'/'+data_params['variable_id']+'_'+
     data_params['table_id']+'_'+url.split('/')[5]+'_'+data_params['experiment_id']+'_'+
     data_params['member_id']+'_'+'-'.join([re.sub('-','',t) for t in
     subset_params['time'][data_params['experiment_id']]])+subset_params['fn_suffix']+'.nc'] *)
Definition cmip6_output_fn (raw_data_dir url : string) (dp : dict) (sp : cmip6_subset)
  : result string :=
  seg <- py_index (py_split "/" url) 5 ;;
  var <- dict_get dp "variable_id" ;;
  tab <- dict_get dp "table_id" ;;
  exp <- dict_get dp "experiment_id" ;;
  mem <- dict_get dp "member_id" ;;
  t <- assoc_get (sp_time sp) exp ;;
  Ok (raw_data_dir ++ seg ++ "/" ++ var ++ "_" ++ tab ++ "_" ++ seg ++ "_" ++ exp ++ "_" ++
      mem ++ "_" ++ String.concat "-" (map (re_sub "-" "") t) ++ sp_fn_suffix sp ++ ".nc").

(** [cfg.lpaths['raw_data_dir']+url.split('/')[5]+'/'] *)
Definition cmip6_model_dir (raw_data_dir url : string) : result string :=
  seg <- py_index (py_split "/" url) 5 ;;
  Ok (raw_data_dir ++ seg ++ "/").

(* ------------------------------------------------------------------ *)
(** ** Time subsetting (main processing cell) *)

Open Scope Z_scope.

Record date := mkdate { year : Z; month : Z; day : Z }.

(** The Python type of a time value ([cftime] class or numpy datetime). *)
Inductive time_type := Datetime360Day | DatetimeNoLeap | DatetimeGregorian | Datetime64.

Record time_val := { tv_date : date; tv_type : time_type }.

Definition date_ltb (a b : date) : bool :=
  (year a <? year b) ||
  ((year a =? year b) && ((month a <? month b) ||
                          ((month a =? month b) && (day a <? day b)))).

(** [ds.time.max()]; [None] for an empty axis (NaT). *)
Definition time_max (ts : list time_val) : option date :=
  fold_left (fun acc t => match acc with
                          | None => Some (tv_date t)
                          | Some m => if date_ltb m (tv_date t) then Some (tv_date t) else Some m
                          end) ts None.

Section TimeSubset.
(** Grids, their time axis, and xarray's [.sel(time=slice(a, b))]. *)
Variable G : Type.
Variable time_axis : G -> list time_val.
Variable sel_time : G -> string -> string -> G.

(** [ds] is the loaded grid, [ds_tmp] the grid being subset,
    [t] = [subset_params['time'][experiment_id]]. *)
Definition time_subset (ds ds_tmp : G) (t_start t_end : string) : result G :=
  let max_is_30 := match time_max (time_axis ds) with
                   | Some m => day m =? 30
                   | None => false
                   end in
  t0 <- py_index (time_axis ds) 0 ;;
  let is_360 := match tv_type t0 with Datetime360Day => true | _ => false end in
  if max_is_30 || is_360
  then Ok (sel_time ds_tmp t_start (re_sub "-31" "-30" t_end))
  else Ok (sel_time ds_tmp t_start t_end).
End TimeSubset.

Arguments time_subset {G} _ _ _ _ _ _.
(* ------------------------------------------------------------------ *)
(** ** Duplicate-coordinate compensation (main processing cell) *)

(** [ds.isel(dim=idx)] along one axis. *)
Definition isel {A} (idx : list nat) (xs : list A) : result (list A) :=
  map_result (py_index xs) idx.

Section DupFix.
(** Coordinate values, [np.round(., 10)], and data values with [np.isnan]. *)
Variable C : Type.
Variable C_eq_dec : forall x y : C, {x = y} + {x <> y}.
Variable round10 : C -> C.
Variable V : Type.
Variable isnan : V -> bool.

(** A rectilinear grid: the primary variable is indexed
    [time][lat][lon]; [var_has_lat] is ['lat' in ds[var].dims]. *)
Record dgrid := {
  d_lat : list C;
  d_lon : list C;
  d_var : list (list (list V));
  var_has_lat : bool
}.

(** [len(np.unique(np.round(xs, 10)))] *)
Definition n_unique (xs : list C) : nat :=
  length (nodup C_eq_dec (map round10 xs)).

(** [ds.isel(lon=1, time=1)[var].values], a vector along lat. *)
Definition ref_slice_lat (g : dgrid) : result (list V) :=
  slab <- py_index (d_var g) 1 ;;
  map_result (fun row => py_index row 1) slab.

(** [ds.isel(lat=1, time=1)[var].values], a vector along lon. *)
Definition ref_slice_lon (g : dgrid) : result (list V) :=
  slab <- py_index (d_var g) 1 ;;
  py_index slab 1.

Definition isel_lat (idx : list nat) (g : dgrid) : result dgrid :=
  lat' <- isel idx (d_lat g) ;;
  var' <- map_result (isel idx) (d_var g) ;;
  Ok {| d_lat := lat'; d_lon := d_lon g; d_var := var'; var_has_lat := var_has_lat g |}.

Definition isel_lon (idx : list nat) (g : dgrid) : result dgrid :=
  lon' <- isel idx (d_lon g) ;;
  var' <- map_result (map_result (isel idx)) (d_var g) ;;
  Ok {| d_lat := d_lat g; d_lon := lon'; d_var := var'; var_has_lat := var_has_lat g |}.

Definition dup_fix_lat (g : dgrid) : result (dgrid * list string) :=
  if negb (Nat.eqb (n_unique (d_lat g)) (length (d_lat g))) then
    ref <- ref_slice_lat g ;;
    g' <- isel_lat (nonzero (map (fun v => negb (isnan v)) ref)) g ;;
    Ok (g', ["has duplicate lat values; attempting to compensate by dropping lat values that are nan in the main variable in the first timestep"])
  else Ok (g, []).

Definition dup_fix_lon (g : dgrid) : result (dgrid * list string) :=
  if negb (Nat.eqb (n_unique (d_lon g)) (length (d_lon g))) then
    ref <- ref_slice_lon g ;;
    g' <- isel_lon (nonzero (map (fun v => negb (isnan v)) ref)) g ;;
    Ok (g', ["has duplicate lon values; attempting to compensate by dropping lon values that are nan in the main variable in the first timestep"])
  else Ok (g, []).

(** [if 'lat' in ds[var].dims:] the lat check, then the lon check on
    the result. *)
Definition dup_fix (g : dgrid) : result (dgrid * list string) :=
  if var_has_lat g then
    r1 <- dup_fix_lat g ;;
    r2 <- dup_fix_lon (fst r1) ;;
    Ok (fst r2, (snd r1 ++ snd r2)%list)
  else Ok (g, []).

(** The same cell on a variable with a pressure-level axis, indexed
    [time][plev][lat][lon] (as [ta], [ua], ... in CMIP6). *)
Record dgrid4 := {
  d4_lat : list C;
  d4_lon : list C;
  d4_var : list (list (list (list V)));
  var4_has_lat : bool
}.

(** [ds.isel(lon=1, time=1)[var].values]: a 2-D array [plev][lat]. *)
Definition ref_slice_lat4 (g : dgrid4) : result (list (list V)) :=
  slab <- py_index (d4_var g) 1 ;;
  map_result (fun lev => map_result (fun row => py_index row 1) lev) slab.

(** [arr.nonzero()[0]] on a 2-D boolean array: the row index of every
    true cell, in row-major order. *)
Fixpoint nonzero_rows_from (i : nat) (m : list (list bool)) : list nat :=
  match m with
  | [] => []
  | row :: m' => (map (fun _ => i) (nonzero row) ++ nonzero_rows_from (S i) m')%list
  end.

Definition nonzero_rows (m : list (list bool)) : list nat := nonzero_rows_from 0 m.

Definition isel_lat4 (idx : list nat) (g : dgrid4) : result dgrid4 :=
  lat' <- isel idx (d4_lat g) ;;
  var' <- map_result (map_result (map_result (isel idx))) (d4_var g) ;;
  Ok {| d4_lat := lat'; d4_lon := d4_lon g; d4_var := var'; var4_has_lat := var4_has_lat g |}.

Definition dup_fix_lat4 (g : dgrid4) : result (dgrid4 * list string) :=
  if negb (Nat.eqb (n_unique (d4_lat g)) (length (d4_lat g))) then
    ref <- ref_slice_lat4 g ;;
    g' <- isel_lat4 (nonzero_rows (map (map (fun v => negb (isnan v))) ref)) g ;;
    Ok (g', ["has duplicate lat values; attempting to compensate by dropping lat values that are nan in the main variable in the first timestep"])
  else Ok (g, []).
End DupFix.

Arguments dgrid : clear implicits.
Arguments Build_dgrid {C V} _ _ _ _.
Arguments n_unique {C} _ _ _.
Arguments ref_slice_lat {C V} _.
Arguments ref_slice_lon {C V} _.
Arguments isel_lat {C V} _ _.
Arguments isel_lon {C V} _ _.
Arguments dup_fix_lat {C} _ _ {V} _ _.
Arguments dup_fix_lon {C} _ _ {V} _ _.
Arguments dup_fix {C} _ _ {V} _ _.
Arguments d_lat {C V} _.
Arguments d_lon {C V} _.
Arguments d_var {C V} _.
Arguments var_has_lat {C V} _.
Arguments dgrid4 : clear implicits.
Arguments Build_dgrid4 {C V} _ _ _ _.
Arguments ref_slice_lat4 {C V} _.
Arguments isel_lat4 {C V} _ _.
Arguments dup_fix_lat4 {C} _ _ {V} _ _.
Arguments d4_lat {C V} _.
Arguments d4_lon {C V} _.
Arguments d4_var {C V} _.
Arguments var4_has_lat {C V} _.

(* ------------------------------------------------------------------ *)
(** ** Pressure-level subsetting (main processing cell) *)

(** [np.allclose(a, b)]: [|a - b| <= atol + rtol * |b|] with the default
    [rtol = 1e-5], [atol = 1e-8]. *)
Definition allclose (a b : Q) : bool :=
  Qle_bool (Qabs (a - b)) ((1 # 100000000) + (1 # 100000) * Qabs b)%Q.

(** [data_params['other']['plev_subset']] *)
Record plev_subset := { plev : Q; outputfn : string }.

(** [data_params]: the catalog keys are abstracted to the variable and
    the optional ['other'] dict (with or without a ['plev_subset'] entry). *)
Record data_params := {
  variable_id : string;
  other : option (option plev_subset)
}.

(** [k in d.keys] without the call: membership in a bound method object,
    which is not iterable, raises [TypeError]. *)
Definition in_bound_method_keys {A} (k : string) (d : A) : result bool :=
  Exc TypeError.

(** [try: body except KeyError: handler] *)
Definition try_except_KeyError {A} (body : result A) (handler : result A) : result A :=
  match body with
  | Exc KeyError => handler
  | r => r
  end.

Section Plev.
(** The subset grid [ds_tmp] and its ['plev'] coordinate. *)
Variable G : Type.
Variable plevs : G -> list Q.
Variable isel_plev : nat -> G -> G.
Variable rename_var : string -> string -> G -> G.

(** The body of the [try]: the first level [allclose] to the target. *)
Definition plev_select (dp : data_params) (ps : plev_subset) (ds_tmp : G) : result G :=
  i <- py_index (nonzero (map (fun p => allclose p (plev ps)) (plevs ds_tmp))) 0 ;;
  Ok (rename_var (variable_id dp) (outputfn ps) (isel_plev i ds_tmp)).

(** The pressure-level branch: [Ok (Some g)] goes on to save [g],
    [Ok None] is the [continue] of the handler (after printing the
    available levels). *)
Definition plev_branch (dp : data_params) (ds_tmp : G) : result (option G) :=
  match other dp with
  | None => Ok (Some ds_tmp)
  | Some o =>
      b <- in_bound_method_keys "plev_subset" o ;;
      if b then
        match o with
        | Some ps =>
            try_except_KeyError
              (g <- plev_select dp ps ds_tmp ;; Ok (Some g))
              (Ok None)
        | None => Exc KeyError
        end
      else Ok (Some ds_tmp)
  end.

(** The loop over the subset specs of one source dataset, from the
    subset grid each spec yields to the files written. *)
Variable S : Type.
Variable subset_of : S -> G.
Variable output_fn : S -> string.

Fixpoint save_specs (dp : data_params) (specs : list S) : result (list effect) :=
  match specs with
  | [] => Ok []
  | sp :: rest =>
      r <- plev_branch dp (subset_of sp) ;;
      match r with
      | None =>
          tr <- save_specs dp rest ;;
          Ok (Warn "pressure levels do not contain the target; skipping." :: tr)
      | Some _ =>
          tr <- save_specs dp rest ;;
          Ok (WriteNc (output_fn sp) :: tr)
      end
  end.
End Plev.

(* ------------------------------------------------------------------ *)
(** ** ERA5 chunked download and concatenation *)

(** Files on disk with the years of data they hold. *)
Definition edisk := list (string * list Z).

Definition e_exists (fs : edisk) (p : string) : bool :=
  existsb (fun f => String.eqb (fst f) p) fs.

(** Writing a file replaces any file of the same name. *)
Definition e_write (fs : edisk) (p : string) (ys : list Z) : edisk :=
  (p, ys) :: filter (fun f => negb (String.eqb (fst f) p)) fs.

Definition e_remove (p : string) (fs : edisk) : result edisk :=
  if e_exists fs p then Ok (filter (fun f => negb (String.eqb (fst f) p)) fs)
  else Exc FileNotFoundError.

(** [str(y)] for a year. *)
Definition zstr (z : Z) : string := NilZero.string_of_int (Z.to_int z).

Record era5_cfg := {
  raw_data_dir : string;                (* cfg.lpaths['raw_data_dir'] *)
  resamp : bool;                        (* resampling_vars['resamp'] *)
  output_freq_name : string;            (* resampling_vars['output_freq_name'] *)
  fn_suffix : string                    (* geographic_vars['fn_suffix'] *)
}.

(** The interpreter state that outlives an exception: the notebook
    global [fn1] (unbound until first assigned), the disk, the effects. *)
Record era5_state := { fn1 : option string; files : edisk; trace : list effect }.

Definition with_files (st : era5_state) (fs : edisk) (tr : list effect) : era5_state :=
  {| fn1 := fn1 st; files := fs; trace := (trace st ++ tr)%list |}.

(** [raw_data_dir + 'ERA5/' + short_name + '_' + freq
     + '_ERA5_historical_reanalysis_' + str(ys[0]) + '0101-' + str(ys[-1])
     + '1231' + fn_suffix + '.nc'] *)
Definition era5_fn (cfg : era5_cfg) (short_name freq : string) (ys : list Z) : result string :=
  y0 <- py_index ys 0 ;;
  y1 <- py_index (rev ys) 0 ;;
  Ok (raw_data_dir cfg ++ "ERA5/" ++ short_name ++ "_" ++ freq ++
      "_ERA5_historical_reanalysis_" ++ zstr y0 ++ "0101-" ++ zstr y1 ++ "1231" ++
      fn_suffix cfg ++ ".nc").

(** One iteration of [for chunk in chunks]: download unless the
    intermediate exists, otherwise report it as skipped. *)
Definition chunk_step (cfg : era5_cfg) (short_name : string) (st : era5_state)
           (chunk : list Z) : era5_state * option py_exc :=
  match era5_fn cfg short_name "hr" chunk with
  | Exc e => (st, Some e)
  | Ok fn0 =>
      if negb (e_exists (files st) (re_sub "hr" "day" fn0)) then
        (* c.retrieve(..., fn0) *)
        let fs1 := e_write (files st) fn0 chunk in
        if resamp cfg then
          let fn1' := re_sub "hr" (output_freq_name cfg) fn0 in
          let fs2 := e_write fs1 fn1' chunk in
          match e_remove fn0 fs2 with
          | Ok fs3 => ({| fn1 := Some fn1'; files := fs3;
                          trace := (trace st ++ [Retrieve chunk; WriteNc fn1';
                                                 Remove fn0; Warn (fn1' ++ " processed!")])%list |},
                       None)
          | Exc e => (with_files st fs2 [Retrieve chunk; WriteNc fn1'], Some e)
          end
        else
          match e_remove fn0 fs1 with
          | Ok fs2 => ({| fn1 := Some fn0; files := e_write fs2 fn0 chunk;
                          trace := (trace st ++ [Retrieve chunk; Remove fn0; WriteNc fn0;
                                                 Warn (fn0 ++ " processed!")])%list |},
                       None)
          | Exc e => (with_files st fs1 [Retrieve chunk], Some e)
          end
      else
        (* print(fn1+' already exists; skipped.') *)
        match fn1 st with
        | None => (st, Some NameError)
        | Some f => (with_files st (files st) [Warn (f ++ " already exists; skipped.")], None)
        end
  end.

Fixpoint chunk_loop (cfg : era5_cfg) (short_name : string) (chunks : list (list Z))
         (st : era5_state) : era5_state * option py_exc :=
  match chunks with
  | [] => (st, None)
  | c :: cs =>
      match chunk_step cfg short_name st c with
      | (st', None) => chunk_loop cfg short_name cs st'
      | r => r
      end
  end.

Definition is_suffix (suf s : string) : bool :=
  let n := String.length s in
  let m := String.length suf in
  Nat.leb m n && String.eqb (substring (n - m) m s) suf.

(** [glob(pre + '*' + suf)]: the star matches any run of characters
    other than ['/']. *)
Definition glob_match (pre suf p : string) : bool :=
  let n := String.length p in
  let a := String.length pre in
  let b := String.length suf in
  Nat.leb (a + b) n && String.prefix pre p && is_suffix suf p &&
  negb (existsb (fun c => Ascii.eqb c "/"%char)
                (list_ascii_of_string (substring a (n - a - b) p))).

(** [for chunk in chunks: os.remove(...)] *)
Fixpoint cleanup (cfg : era5_cfg) (short_name : string) (chunks : list (list Z))
         (st : era5_state) : era5_state * option py_exc :=
  match chunks with
  | [] => (st, None)
  | c :: cs =>
      match era5_fn cfg short_name (output_freq_name cfg) c with
      | Exc e => (st, Some e)
      | Ok p =>
          match e_remove p (files st) with
          | Ok fs' => cleanup cfg short_name cs (with_files st fs' [Remove p])
          | Exc e => (st, Some e)
          end
      end
  end.

(** The files matched by the wildcard
    [short_name + '_' + output_freq_name + '_ERA5_historical_reanalysis_*' + fn_suffix + '.nc']. *)
Definition intermediates (cfg : era5_cfg) (short_name : string) (fs : edisk) : edisk :=
  let pre := raw_data_dir cfg ++ "ERA5/" ++ short_name ++ "_" ++ output_freq_name cfg ++
             "_ERA5_historical_reanalysis_" in
  let suf := fn_suffix cfg ++ ".nc" in
  filter (fun f => glob_match pre suf (fst f)) fs.

(** [xr.open_mfdataset(<wildcard>, combine='by_coords').to_netcdf(fn_final)]
    followed by the cleanup; the final file holds the years of every
    matched intermediate.  [to_netcdf] onto a file that [open_mfdataset]
    holds open is refused with [PermissionError]. *)
Definition concat_phase (cfg : era5_cfg) (short_name : string) (chunks : list (list Z))
           (fn_final : string) (st : era5_state) : era5_state * option py_exc :=
  match intermediates cfg short_name (files st) with
  | [] => (st, Some OSError)            (* no files to open *)
  | matched =>
      if e_exists matched fn_final then (st, Some PermissionError)
      else
        let st1 := with_files st (e_write (files st) fn_final (flat_map snd matched))
                              [WriteNc fn_final] in
        cleanup cfg short_name chunks st1
  end.

(** One iteration of [for download_var in download_vars]. *)
Definition era5_var (cfg : era5_cfg) (all_years : list Z) (chunks : list (list Z))
           (short_name : string) (st : era5_state) : era5_state * option py_exc :=
  match era5_fn cfg short_name (if resamp cfg then output_freq_name cfg else "hr") all_years with
  | Exc e => (st, Some e)
  | Ok fn_final =>
      if negb (e_exists (files st) fn_final) then
        match chunk_loop cfg short_name chunks st with
        | (st1, None) => concat_phase cfg short_name chunks fn_final st1
        | r => r
        end
      else (with_files st (files st) [Warn (fn_final ++ " already exists, skipped.")], None)
  end.

Fixpoint era5_run (cfg : era5_cfg) (all_years : list Z) (chunks : list (list Z))
         (download_vars : list string) (st : era5_state) : era5_state * option py_exc :=
  match download_vars with
  | [] => (st, None)
  | v :: vs =>
      match era5_var cfg all_years chunks v st with
      | (st', None) => era5_run cfg all_years chunks vs st'
      | r => r
      end
  end.

(** [chunks = [all_years[i:i + chunk_size] for i in range(0, len(all_years), chunk_size)]] *)
Fixpoint make_chunks_go (fuel : nat) (chunk_size : nat) (ys : list Z) : list (list Z) :=
  match fuel, ys with
  | O, _ => []
  | _, [] => []
  | S f, _ => firstn chunk_size ys :: make_chunks_go f chunk_size (skipn chunk_size ys)
  end.

Definition make_chunks (chunk_size : nat) (ys : list Z) : list (list Z) :=
  make_chunks_go (List.length ys) chunk_size ys.

(** [np.arange(a, b)] *)
Definition arange (a b : Z) : list Z :=
  map (fun i => a + Z.of_nat i) (seq 0 (Z.to_nat (b - a))).

(* ================================================================== *)
(** * Properties *)

Close Scope string_scope.

(* ------------------------------------------------------------------ *)
(** ** Float64 arithmetic *)

Open Scope Q_scope.

Lemma P2_pos (e : Z) : 0 < P2 e.
Proof. apply Qpower_0_lt. reflexivity. Qed.

Lemma P2_plus (a b : Z) : P2 (a + b) == P2 a * P2 b.
Proof. apply Qpower_plus. discriminate. Qed.

Lemma P2_le (a b : Z) : (a <= b)%Z -> P2 a <= P2 b.
Proof. intros H. apply Qpower_le_compat_l; [exact H|discriminate]. Qed.

Lemma P2_lt (a b : Z) : (a < b)%Z -> P2 a < P2 b.
Proof. intros H. apply Qpower_lt_compat_l; [exact H|reflexivity]. Qed.

Lemma P2_le_inv (a b : Z) : P2 a <= P2 b -> (a <= b)%Z.
Proof. intros H. apply Qpower_le_compat_l_inv in H; [exact H|reflexivity]. Qed.

Lemma P2_Z (e : Z) : (0 <= e)%Z -> P2 e == inject_Z (2 ^ e).
Proof. intros H. unfold P2. rewrite Zpower_Qpower by exact H. reflexivity. Qed.

Lemma P2_opp (e : Z) : P2 (- e) == / P2 e.
Proof. apply Qpower_opp. Qed.

Lemma Qdiv_Z_le (p q r s : Z) : (0 < q)%Z -> (0 < s)%Z ->
  (inject_Z p / inject_Z q <= inject_Z r / inject_Z s <-> (p * s <= r * q)%Z).
Proof.
  intros Hq Hs. destruct q as [|q|q]; try lia. destruct s as [|s|s]; try lia.
  unfold Qle, Qdiv, Qmult, Qinv, inject_Z. simpl. rewrite !Z.mul_1_r. lia.
Qed.

Lemma Qdiv_Z_lt (p q r s : Z) : (0 < q)%Z -> (0 < s)%Z ->
  (inject_Z p / inject_Z q < inject_Z r / inject_Z s <-> (p * s < r * q)%Z).
Proof.
  intros Hq Hs. destruct q as [|q|q]; try lia. destruct s as [|s|s]; try lia.
  unfold Qlt, Qdiv, Qmult, Qinv, inject_Z. simpl. rewrite !Z.mul_1_r. lia.
Qed.

Lemma Qmake_div (n : Z) (d : positive) : n # d == inject_Z n / inject_Z (Zpos d).
Proof. unfold Qeq, Qdiv, Qmult, Qinv, inject_Z. simpl. lia. Qed.

Lemma P2_diff (a b : Z) : (0 <= a)%Z -> (0 <= b)%Z ->
  P2 (a - b) == inject_Z (2 ^ a) / inject_Z (2 ^ b).
Proof.
  intros Ha Hb. unfold Z.sub. rewrite P2_plus, P2_opp, !P2_Z by assumption. reflexivity.
Qed.

Lemma mag_bounds (x : Q) : 0 < x ->
  let k := (Z.log2 (Qnum x) - Z.log2 (Zpos (Qden x)))%Z in
  P2 (k - 1) <= x /\ x < P2 (k + 1).
Proof.
  intros Hx k. destruct x as [n d]. cbn [Qnum Qden] in k.
  assert (Hn : (0 < n)%Z) by (unfold Qlt in Hx; simpl in Hx; lia).
  pose proof (Z.log2_spec n Hn) as [Hn1 Hn2].
  pose proof (Z.log2_spec (Zpos d) eq_refl) as [Hd1 Hd2].
  pose proof (Z.log2_nonneg n). pose proof (Z.log2_nonneg (Zpos d)).
  rewrite Qmake_div. unfold k. split.
  - replace (Z.log2 n - Z.log2 (Zpos d) - 1)%Z with (Z.log2 n - Z.succ (Z.log2 (Zpos d)))%Z by lia.
    rewrite P2_diff by lia. apply Qdiv_Z_le; [apply Z.pow_pos_nonneg; lia|lia|].
    apply Z.mul_le_mono_nonneg; lia.
  - replace (Z.log2 n - Z.log2 (Zpos d) + 1)%Z with (Z.succ (Z.log2 n) - Z.log2 (Zpos d))%Z by lia.
    rewrite P2_diff by lia. apply Qdiv_Z_lt; [lia|apply Z.pow_pos_nonneg; lia|].
    apply Z.le_lt_trans with (n * Zpos d)%Z; [nia|].
    apply Z.mul_lt_mono_pos_r; lia.
Qed.

Lemma mag_spec (x : Q) : 0 < x -> P2 (mag x - 1) <= x /\ x < P2 (mag x).
Proof.
  intros Hx. pose proof (mag_bounds x Hx) as [H1 H2]. unfold mag.
  set (k := (Z.log2 (Qnum x) - Z.log2 (Zpos (Qden x)))%Z) in *.
  destruct (Qle_bool (P2 k) x) eqn:E.
  - apply Qle_bool_iff in E. replace (k + 1 - 1)%Z with k by lia. auto.
  - split; [exact H1|]. apply Qnot_le_lt. intros C. apply Qle_bool_iff in C. congruence.
Qed.

Lemma mag_mono (x y : Q) : 0 < x -> x <= y -> (mag x <= mag y)%Z.
Proof.
  intros Hx Hxy. destruct (Z_le_gt_dec (mag x) (mag y)) as [H|H]; [exact H|exfalso].
  pose proof (mag_spec x Hx) as [Hx1 _].
  pose proof (mag_spec y (Qlt_le_trans _ _ _ Hx Hxy)) as [_ Hy2].
  pose proof (P2_le (mag y) (mag x - 1) ltac:(lia)).
  apply (Qlt_irrefl y). eapply Qlt_le_trans; [exact Hy2|].
  eapply Qle_trans; [eassumption|]. eapply Qle_trans; eassumption.
Qed.

Lemma mag_unique (x : Q) (k : Z) : P2 (k - 1) <= x -> x < P2 k -> mag x = k.
Proof.
  intros H1 H2. assert (Hx : 0 < x) by (eapply Qlt_le_trans; [apply P2_pos|exact H1]).
  pose proof (mag_spec x Hx) as [H3 H4].
  destruct (Z_lt_le_dec (k - 1) (mag x)) as [A|A].
  - destruct (Z_lt_le_dec (mag x) (k + 1)) as [B|B]; [lia|].
    pose proof (P2_le k (mag x - 1) ltac:(lia)). lra.
  - pose proof (P2_le (mag x) (k - 1) A). lra.
Qed.

Lemma mag_comp (x y : Q) : 0 < x -> x == y -> mag x = mag y.
Proof.
  intros Hx E. pose proof (mag_spec x Hx) as [H1 H2].
  symmetry. apply mag_unique; lra.
Qed.

Lemma fexp_comp (x y : Q) : 0 < x -> x == y -> fexp x = fexp y.
Proof. intros Hx E. unfold fexp. rewrite (mag_comp x y Hx E). reflexivity. Qed.

Lemma Qle_bool_comp (x x' y y' : Q) : x == x' -> y == y' -> Qle_bool x y = Qle_bool x' y'.
Proof.
  intros E1 E2. apply Bool.eq_true_iff_eq. rewrite !Qle_bool_iff, E1, E2. tauto.
Qed.

Lemma Qle_bool_false (x y : Q) : Qle_bool x y = false -> y < x.
Proof.
  intros H. apply Qnot_le_lt. intros C. apply Qle_bool_iff in C. congruence.
Qed.

Lemma rne_comp (x y : Q) : x == y -> rne x = rne y.
Proof.
  intros E. unfold rne. rewrite (Qfloor_comp x y E).
  rewrite (Qle_bool_comp (x - inject_Z (Qfloor y)) (y - inject_Z (Qfloor y)) (1 # 2) (1 # 2))
    by lra.
  rewrite (Qle_bool_comp (1 # 2) (1 # 2) (x - inject_Z (Qfloor y)) (y - inject_Z (Qfloor y)))
    by lra.
  reflexivity.
Qed.

Lemma rne_range (x : Q) : (Qfloor x <= rne x <= Qfloor x + 1)%Z.
Proof.
  unfold rne. cbv zeta.
  destruct (Qle_bool _ (1 # 2)); [destruct (Qle_bool (1 # 2) _); [destruct (Z.even _)|]|]; lia.
Qed.

Lemma rne_mono (x y : Q) : x <= y -> (rne x <= rne y)%Z.
Proof.
  intros H. pose proof (Qfloor_resp_le x y H) as Hf.
  pose proof (rne_range x). pose proof (rne_range y).
  destruct (Z.eq_dec (Qfloor x) (Qfloor y)) as [E|E]; [|lia].
  unfold rne. rewrite E. set (f := Qfloor y). cbv zeta.
  destruct (Qle_bool (x - inject_Z f) (1 # 2)) eqn:A1;
  destruct (Qle_bool (1 # 2) (x - inject_Z f)) eqn:A2;
  destruct (Qle_bool (y - inject_Z f) (1 # 2)) eqn:B1;
  destruct (Qle_bool (1 # 2) (y - inject_Z f)) eqn:B2;
  destruct (Z.even f); try lia;
  repeat match goal with
  | h : Qle_bool _ _ = true |- _ => apply Qle_bool_iff in h
  | h : Qle_bool _ _ = false |- _ => apply Qle_bool_false in h
  end; lra.
Qed.

Lemma rne_int (n : Z) : rne (inject_Z n) = n.
Proof.
  unfold rne. rewrite Qfloor_Z. cbv zeta.
  replace (Qle_bool (inject_Z n - inject_Z n) (1 # 2)) with true
    by (symmetry; apply Qle_bool_iff; lra).
  replace (Qle_bool (1 # 2) (inject_Z n - inject_Z n)) with false
    by (symmetry; apply Bool.not_true_iff_false; rewrite Qle_bool_iff; lra).
  reflexivity.
Qed.

Lemma rne_le (x : Q) (n : Z) : x <= inject_Z n -> (rne x <= n)%Z.
Proof. intros H. rewrite <- (rne_int n). apply rne_mono, H. Qed.

Lemma rne_ge (x : Q) (n : Z) : inject_Z n <= x -> (n <= rne x)%Z.
Proof. intros H. rewrite <- (rne_int n). apply rne_mono, H. Qed.

Lemma div_P2_le (x : Q) (e k : Z) : x <= P2 (k + e) -> x / P2 e <= P2 k.
Proof. intros H. apply Qle_shift_div_r; [apply P2_pos|]. rewrite <- P2_plus. exact H. Qed.

Lemma div_P2_lt (x : Q) (e k : Z) : x < P2 (k + e) -> x / P2 e < P2 k.
Proof. intros H. apply Qlt_shift_div_r; [apply P2_pos|]. rewrite <- P2_plus. exact H. Qed.

Lemma div_P2_ge (x : Q) (e k : Z) : P2 (k + e) <= x -> P2 k <= x / P2 e.
Proof. intros H. apply Qle_shift_div_l; [apply P2_pos|]. rewrite <- P2_plus. exact H. Qed.

Lemma div_P2_nonneg (x : Q) (e : Z) : 0 <= x -> 0 <= x / P2 e.
Proof. intros H. apply Qle_shift_div_l; [apply P2_pos|]. rewrite Qmult_0_l. exact H. Qed.

Lemma inject_Z_nonneg (n : Z) : (0 <= n)%Z -> 0 <= inject_Z n.
Proof. intros H. change 0 with (inject_Z 0). rewrite <- Zle_Qle. exact H. Qed.

Lemma round_pos_zero : round_pos 0 == 0.
Proof. vm_compute. reflexivity. Qed.

Lemma round_pos_nonneg (a : Q) : 0 <= a -> 0 <= round_pos a.
Proof.
  intros H. unfold round_pos. apply Qmult_le_0_compat; [|apply Qlt_le_weak, P2_pos].
  apply inject_Z_nonneg. apply rne_ge. apply div_P2_nonneg, H.
Qed.

Lemma round_pos_comp (a b : Q) : 0 <= a -> a == b -> round_pos a == round_pos b.
Proof.
  intros Ha E. destruct (Qeq_dec a 0) as [Z0|NZ].
  - unfold round_pos.
    assert (R : forall c e, c == 0 -> rne (c / P2 e) = 0%Z).
    { intros c e Hc. rewrite <- (rne_int 0). apply rne_comp. rewrite Hc. reflexivity. }
    rewrite !R by lra. reflexivity.
  - assert (Hp : 0 < a) by (apply Qle_lteq in Ha as [Ha|Ha]; [exact Ha|exfalso; apply NZ; symmetry; exact Ha]).
    unfold round_pos. rewrite (fexp_comp a b Hp E).
    rewrite (rne_comp (a / P2 (fexp b)) (b / P2 (fexp b))) by (rewrite E; reflexivity).
    reflexivity.
Qed.

Lemma round_pos_mono (x y : Q) : 0 <= x -> x <= y -> round_pos x <= round_pos y.
Proof.
  intros Hx Hxy. destruct (Qeq_dec x 0) as [Z0|NZ].
  - rewrite (round_pos_comp x 0 Hx Z0), round_pos_zero. apply round_pos_nonneg. lra.
  - assert (Hp : 0 < x) by (apply Qle_lteq in Hx as [Hx'|Hx']; [exact Hx'|exfalso; apply NZ; symmetry; exact Hx']).
    assert (Hyp : 0 < y) by lra.
    pose proof (mag_mono x y Hp Hxy) as Hm.
    pose proof (mag_spec x Hp) as [Hx1 Hx2]. pose proof (mag_spec y Hyp) as [Hy1 Hy2].
    unfold round_pos. set (ex := fexp x). set (ey := fexp y).
    assert (Hexy : (ex <= ey)%Z) by (unfold ex, ey, fexp; lia).
    destruct (Z.eq_dec ex ey) as [E|E].
    + rewrite E. apply Qmult_le_compat_r; [|apply Qlt_le_weak, P2_pos].
      rewrite <- Zle_Qle. apply rne_mono. apply Qmult_le_compat_r; [exact Hxy|].
      apply Qinv_le_0_compat, Qlt_le_weak, P2_pos.
    + assert (Hey : ey = (mag y - 53)%Z) by (unfold ey, ex, fexp in *; lia).
      assert (Hmx : (mag x <= ey + 52)%Z) by (unfold ex, fexp in *; lia).
      set (K := Z.max (mag x - ex) 0).
      assert (Hlo : inject_Z (2 ^ 52) * P2 ey <= inject_Z (rne (y / P2 ey)) * P2 ey).
      { apply Qmult_le_compat_r; [|apply Qlt_le_weak, P2_pos]. rewrite <- Zle_Qle.
        apply rne_ge. rewrite <- P2_Z by lia. apply div_P2_ge.
        replace (52 + ey)%Z with (mag y - 1)%Z by lia. exact Hy1. }
      assert (Hhi : inject_Z (rne (x / P2 ex)) * P2 ex <= inject_Z (2 ^ K) * P2 ex).
      { apply Qmult_le_compat_r; [|apply Qlt_le_weak, P2_pos]. rewrite <- Zle_Qle.
        apply rne_le. rewrite <- P2_Z by lia. apply Qlt_le_weak, div_P2_lt.
        apply Qlt_le_trans with (P2 (mag x)); [exact Hx2|]. apply P2_le. lia. }
      rewrite <- P2_Z in Hlo, Hhi by lia. rewrite <- P2_plus in Hlo, Hhi.
      pose proof (P2_le (K + ex) (52 + ey) ltac:(lia)). lra.
Qed.

Lemma round64_pos (x : Q) : 0 <= x -> round64 x == round_pos x.
Proof.
  intros H. unfold round64. rewrite Qred_correct.
  apply Qle_bool_iff in H. rewrite H. reflexivity.
Qed.

Lemma round64_neg (x : Q) : x < 0 -> round64 x == - round_pos (- x).
Proof.
  intros H. unfold round64. rewrite Qred_correct.
  replace (Qle_bool 0 x) with false; [reflexivity|].
  symmetry. apply Bool.not_true_iff_false. rewrite Qle_bool_iff. lra.
Qed.

Lemma round64_mono (x y : Q) : x <= y -> round64 x <= round64 y.
Proof.
  intros H. destruct (Qlt_le_dec x 0) as [Hx|Hx]; destruct (Qlt_le_dec y 0) as [Hy|Hy].
  - rewrite !round64_neg by assumption.
    pose proof (round_pos_mono (- y) (- x) ltac:(lra) ltac:(lra)). lra.
  - rewrite round64_neg, round64_pos by assumption.
    pose proof (round_pos_nonneg (- x) ltac:(lra)). pose proof (round_pos_nonneg y Hy). lra.
  - lra.
  - rewrite !round64_pos by assumption. apply round_pos_mono; assumption.
Qed.

Lemma round64_comp (x y : Q) : x == y -> round64 x == round64 y.
Proof.
  intros E. apply Qle_antisym; apply round64_mono; lra.
Qed.

#[global] Instance round64_Proper : Proper (Qeq ==> Qeq) round64.
Proof. intros x y E. apply round64_comp, E. Qed.

Lemma round64_zero : round64 0 == 0.
Proof. reflexivity. Qed.

Lemma round64_nonneg (x : Q) : 0 <= x -> 0 <= round64 x.
Proof. intros H. rewrite <- round64_zero. apply round64_mono, H. Qed.

Lemma round64_nonpos (x : Q) : x <= 0 -> round64 x <= 0.
Proof. intros H. rewrite <- round64_zero. apply round64_mono, H. Qed.

Lemma mag_double (b : Q) : 0 < b -> mag (2 * b) = (mag b + 1)%Z.
Proof.
  intros Hb. pose proof (mag_spec b Hb) as [H1 H2]. apply mag_unique.
  - replace (mag b + 1 - 1)%Z with ((mag b - 1) + 1)%Z by lia.
    rewrite P2_plus. change (P2 1) with 2. lra.
  - rewrite P2_plus. change (P2 1) with 2.
    pose proof (P2_pos (mag b)). lra.
Qed.

Lemma double_mul2 (b : Q) : 0 < b -> round64 b == b -> round64 (2 * b) == 2 * b.
Proof.
  intros Hb Hd. rewrite round64_pos in Hd by lra. rewrite round64_pos by lra.
  unfold round_pos in *.
  set (e := fexp b) in *. set (m := rne (b / P2 e)) in *.
  set (e' := fexp (2 * b)).
  set (d := (e + 1 - e')%Z).
  assert (Hd01 : (0 <= d <= 1)%Z)
    by (unfold d, e', e, fexp; rewrite (mag_double b Hb); lia).
  assert (Ee : e = ((d - 1) + e')%Z) by (unfold d; lia).
  assert (Hq : 2 * b / P2 e' == inject_Z (m * 2 ^ d)).
  { rewrite inject_Z_mult, <- P2_Z by lia. rewrite <- Hd. rewrite Ee, P2_plus.
    assert (Hpd : P2 d == 2 * P2 (d - 1)).
    { replace d with ((d - 1) + 1)%Z at 1 by lia. rewrite P2_plus. change (P2 1) with 2. ring. }
    rewrite Hpd. field. intros C. pose proof (P2_pos e'). lra. }
  rewrite (rne_comp _ _ Hq), rne_int, <- Hq. field.
  intros C. pose proof (P2_pos e'). lra.
Qed.

Lemma Qlt_bool_iff (x y : Q) : Qlt_bool x y = true <-> x < y.
Proof.
  unfold Qlt_bool. rewrite Bool.negb_true_iff. split.
  - apply Qle_bool_false.
  - intros H. apply Bool.not_true_iff_false. rewrite Qle_bool_iff. lra.
Qed.

Lemma Qlt_bool_false (x y : Q) : Qlt_bool x y = false <-> y <= x.
Proof.
  rewrite <- Bool.not_true_iff_false, Qlt_bool_iff. split; [apply Qnot_lt_le|]. lra.
Qed.

Lemma Qeq_bool_false (x y : Q) : Qeq_bool x y = false <-> ~ x == y.
Proof.
  rewrite <- Bool.not_true_iff_false, Qeq_bool_iff. tauto.
Qed.

Lemma Qlt_bool_comp (x x' y y' : Q) : x == x' -> y == y' -> Qlt_bool x y = Qlt_bool x' y'.
Proof. intros E1 E2. unfold Qlt_bool. rewrite (Qle_bool_comp y y' x x' E2 E1). reflexivity. Qed.

Lemma Qeq_bool_comp (x x' y y' : Q) : x == x' -> y == y' -> Qeq_bool x y = Qeq_bool x' y'.
Proof.
  intros E1 E2. apply Bool.eq_true_iff_eq. rewrite !Qeq_bool_iff, E1, E2. tauto.
Qed.

Lemma floordiv_of_div_comp (x y : Q) : x == y -> floordiv_of_div x == floordiv_of_div y.
Proof.
  intros E. unfold floordiv_of_div. rewrite (Qeq_bool_comp x y 0 0 E) by reflexivity.
  rewrite (Qfloor_comp x y E).
  rewrite (Qlt_bool_comp (1 # 2) (1 # 2) (round64 (x - _)) (round64 (y - _)))
    by (try reflexivity; apply round64_comp; rewrite E; reflexivity).
  reflexivity.
Qed.

Lemma floordiv_of_div_nonpos (x : Q) : x <= 0 -> floordiv_of_div x <= 0.
Proof.
  intros H. unfold floordiv_of_div.
  destruct (Qeq_bool x 0); [lra|]. cbv zeta.
  pose proof (Qfloor_le x) as Hf. pose proof (Qlt_floor x) as Hf'.
  rewrite inject_Z_plus in Hf'. change (inject_Z 1) with 1 in Hf'.
  destruct (Qlt_bool (1 # 2) _) eqn:C.
  - apply Qlt_bool_iff in C.
    assert (Hd : 1 # 2 < x - inject_Z (Qfloor x)).
    { apply Qnot_le_lt. intros C'. apply round64_mono in C'.
      change (round64 (1 # 2)) with (1 # 2) in C'. lra. }
    destruct (Z_lt_le_dec (Qfloor x) 0) as [Hn|Hn].
    + apply round64_nonpos.
      assert (Hn' : (Qfloor x + 1 <= 0)%Z) by lia. rewrite Zle_Qle, inject_Z_plus in Hn'.
      exact Hn'.
    + apply inject_Z_nonneg in Hn. lra.
  - lra.
Qed.

Lemma floordiv_of_div_ge2 (x : Q) : 2 <= x -> 2 <= floordiv_of_div x.
Proof.
  intros H. unfold floordiv_of_div.
  replace (Qeq_bool x 0) with false by (symmetry; apply Qeq_bool_false; lra). cbv zeta.
  assert (Hf : (2 <= Qfloor x)%Z).
  { change 2%Z with (Qfloor 2). apply Qfloor_resp_le, H. }
  rewrite Zle_Qle in Hf. change (inject_Z 2) with 2 in Hf.
  destruct (Qlt_bool (1 # 2) _).
  - change 2 with (round64 2) at 1. apply round64_mono. lra.
  - exact Hf.
Qed.

Lemma floordiv_of_div_one : floordiv_of_div 1 == 1.
Proof. reflexivity. Qed.

Lemma floordiv_of_div_zero (x : Q) : x == 0 -> floordiv_of_div x == 0.
Proof.
  intros H. unfold floordiv_of_div. apply Qeq_bool_iff in H. rewrite H. reflexivity.
Qed.

Lemma Qdiv_mul (a b : Q) : ~ b == 0 -> a == b * (a / b).
Proof. intros H. field. exact H. Qed.

Lemma c_fmod_pos (a b : Q) : 0 <= a -> 0 < b ->
  c_fmod a b == a - b * inject_Z (Qfloor (a / b)) /\
  0 <= c_fmod a b < b /\ (0 <= Qfloor (a / b))%Z.
Proof.
  intros Ha Hb. unfold c_fmod, c_trunc.
  assert (Hr : 0 <= a / b) by (apply Qle_shift_div_l; lra).
  apply Qle_bool_iff in Hr as Hr'. rewrite Hr'. rewrite Qred_correct.
  pose proof (Qdiv_mul a b ltac:(lra)) as Ea.
  pose proof (Qfloor_le (a / b)) as F1. pose proof (Qlt_floor (a / b)) as F2.
  rewrite inject_Z_plus in F2. change (inject_Z 1) with 1 in F2.
  generalize dependent (a / b). intros r Ea Hr Hr' F1 F2.
  assert (Hq : (0 <= Qfloor r)%Z).
  { change 0%Z with (Qfloor 0). apply Qfloor_resp_le. lra. }
  split; [reflexivity|]. split; [|exact Hq]. nra.
Qed.

Lemma c_fmod_negdiv (a b : Q) : 0 <= a -> b < 0 ->
  exists t, (t <= 0)%Z /\ c_fmod a b == a - b * inject_Z t /\ 0 <= c_fmod a b.
Proof.
  intros Ha Hb. unfold c_fmod, c_trunc. setoid_rewrite Qred_correct.
  pose proof (Qdiv_mul a b ltac:(lra)) as Ea.
  generalize dependent (a / b). intros r Ea.
  destruct (Qle_bool 0 r) eqn:E.
  - apply Qle_bool_iff in E. assert (Hr : r == 0) by nra.
    exists (Qfloor r). rewrite (Qfloor_comp r 0 Hr). change (Qfloor 0) with 0%Z.
    split; [lia|]. split; [reflexivity|]. change (inject_Z 0) with 0. lra.
  - apply Qle_bool_false in E.
    pose proof (Qfloor_le (- r)) as F1. pose proof (Qlt_floor (- r)) as F2.
    rewrite inject_Z_plus in F2. change (inject_Z 1) with 1 in F2.
    assert (Hg : (0 <= Qfloor (- r))%Z).
    { change 0%Z with (Qfloor 0). apply Qfloor_resp_le. lra. }
    exists (- Qfloor (- r))%Z. split; [lia|]. split; [reflexivity|].
    rewrite inject_Z_opp. nra.
Qed.

Lemma c_fmod_neg (a b : Q) : a < 0 -> 0 < b -> - b < c_fmod a b <= 0.
Proof.
  intros Ha Hb. unfold c_fmod, c_trunc. rewrite Qred_correct.
  pose proof (Qdiv_mul a b ltac:(lra)) as Ea.
  set (r := a / b) in *. clearbody r.
  replace (Qle_bool 0 r) with false
    by (symmetry; apply Bool.not_true_iff_false; rewrite Qle_bool_iff; nra).
  pose proof (Qfloor_le (- r)) as F1. pose proof (Qlt_floor (- r)) as F2.
  rewrite inject_Z_plus in F2. change (inject_Z 1) with 1 in F2.
  rewrite inject_Z_opp. nra.
Qed.

Lemma np_floor_divide_pos (a b : Q) : 0 <= a -> 0 < b -> round64 b == b ->
  exists f, np_floor_divide a b = Some f /\
    (a < b -> f == 0) /\ (b <= a -> a < 2 * b -> f == 1) /\ (2 * b <= a -> 2 <= f).
Proof.
  intros Ha Hb Hd. unfold np_floor_divide.
  replace (Qeq_bool b 0) with false by (symmetry; apply Qeq_bool_false; lra).
  eexists. split; [reflexivity|]. unfold npy_divmod.
  destruct (c_fmod_pos a b Ha Hb) as (Em & Hm & Hq).
  set (m := c_fmod a b) in *.
  replace (xorb (Qlt_bool b 0) (Qlt_bool m 0)) with false
    by (rewrite (proj2 (Qlt_bool_false b 0)), (proj2 (Qlt_bool_false m 0)) by lra; reflexivity).
  rewrite Bool.andb_false_r. cbn [fst].
  pose proof (Qdiv_mul a b ltac:(lra)) as Ea.
  pose proof (Qfloor_le (a / b)) as F1. pose proof (Qlt_floor (a / b)) as F2.
  rewrite inject_Z_plus in F2. change (inject_Z 1) with 1 in F2.
  set (r := a / b) in *. clearbody r. set (q := Qfloor r) in *.
  assert (Eam : a - m == b * inject_Z q) by lra.
  split; [|split].
  - intros Hab. assert (Hq0 : q = 0%Z).
    { assert (q < 1)%Z by (rewrite Zlt_Qlt; change (inject_Z 1) with 1; nra). lia. }
    rewrite Hq0 in Eam. change (inject_Z 0) with 0 in Eam.
    apply floordiv_of_div_zero.
    rewrite (round64_comp _ 0); [reflexivity|].
    rewrite (round64_comp (a - m) 0) by lra. reflexivity.
  - intros H1 H2. assert (Hq1 : q = 1%Z).
    { assert (q < 2)%Z by (rewrite Zlt_Qlt; change (inject_Z 2) with 2; nra).
      assert (0 < q)%Z by (rewrite Zlt_Qlt; change (inject_Z 0) with 0; nra). lia. }
    rewrite Hq1 in Eam. change (inject_Z 1) with 1 in Eam.
    rewrite <- floordiv_of_div_one. apply floordiv_of_div_comp.
    rewrite (round64_comp (a - m) b) by lra. rewrite Hd.
    rewrite (round64_comp (b / b) 1) by (field; lra). reflexivity.
  - intros H2. assert (Hq2 : (2 <= q)%Z).
    { assert (1 < q)%Z by (rewrite Zlt_Qlt; change (inject_Z 1) with 1; nra). lia. }
    rewrite Zle_Qle in Hq2. change (inject_Z 2) with 2 in Hq2.
    apply floordiv_of_div_ge2.
    change 2 with (round64 2) at 1. apply round64_mono.
    apply Qle_shift_div_l; [exact Hb|].
    rewrite <- (double_mul2 b Hb Hd). apply round64_mono. nra.
Qed.

Lemma np_floor_divide_negdiv (a b : Q) : 0 <= a -> b < 0 ->
  exists f, np_floor_divide a b = Some f /\ f <= 0.
Proof.
  intros Ha Hb. unfold np_floor_divide.
  replace (Qeq_bool b 0) with false by (symmetry; apply Qeq_bool_false; lra).
  eexists. split; [reflexivity|]. unfold npy_divmod.
  destruct (c_fmod_negdiv a b Ha Hb) as (t & Ht & Em & Hm).
  set (m := c_fmod a b) in *.
  assert (Hdiv : round64 (round64 (a - m) / b) <= 0).
  { apply round64_nonpos.
    assert (Hn : 0 <= round64 (a - m)).
    { apply round64_nonneg. rewrite Em.
      assert (inject_Z t <= 0) by (change 0 with (inject_Z 0); rewrite <- Zle_Qle; exact Ht).
      nra. }
    pose proof (Qdiv_mul (round64 (a - m)) b ltac:(lra)) as E.
    generalize dependent (round64 (a - m) / b). intros r E. nra. }
  destruct (negb (Qeq_bool m 0) && xorb (Qlt_bool b 0) (Qlt_bool m 0)); cbn [fst];
    apply floordiv_of_div_nonpos; [|exact Hdiv].
  apply round64_nonpos. lra.
Qed.

Lemma np_remainder_range (a b : Q) : 0 < b -> round64 b == b ->
  0 <= np_remainder a b <= b.
Proof.
  intros Hb Hd. unfold np_remainder, npy_divmod.
  destruct (Qlt_le_dec a 0) as [Ha|Ha].
  - pose proof (c_fmod_neg a b Ha Hb) as Hm.
    set (m := c_fmod a b) in *.
    destruct (negb (Qeq_bool m 0) && xorb (Qlt_bool b 0) (Qlt_bool m 0)) eqn:C; cbn [snd].
    + split.
      * apply round64_nonneg. lra.
      * rewrite <- Hd at 2. apply round64_mono. lra.
    + apply Bool.andb_false_iff in C as [C|C].
      * apply Bool.negb_false_iff, Qeq_bool_iff in C. lra.
      * rewrite (proj2 (Qlt_bool_false b 0)) in C by lra.
        destruct (Qlt_bool m 0) eqn:C'; [discriminate|].
        apply Qlt_bool_false in C'. lra.
  - destruct (c_fmod_pos a b Ha Hb) as (_ & Hm & _).
    set (m := c_fmod a b) in *.
    replace (xorb (Qlt_bool b 0) (Qlt_bool m 0)) with false
      by (rewrite (proj2 (Qlt_bool_false b 0)), (proj2 (Qlt_bool_false m 0)) by lra; reflexivity).
    rewrite Bool.andb_false_r. cbn [snd]. lra.
Qed.

Lemma np_remainder_small (a b : Q) : 0 <= a < b -> np_remainder a b = Qred a.
Proof.
  intros [Ha Hab]. assert (Hb : 0 < b) by lra.
  unfold np_remainder, npy_divmod.
  destruct (c_fmod_pos a b Ha Hb) as (_ & Hm & _).
  assert (Em : c_fmod a b = Qred a).
  { unfold c_fmod, c_trunc.
    assert (Hr : 0 <= a / b) by (apply Qle_shift_div_l; lra).
    apply Qle_bool_iff in Hr as Hr'. rewrite Hr'.
    assert (Hf : Qfloor (a / b) = 0%Z).
    { pose proof (Qfloor_le (a / b)) as F1. pose proof (Qlt_floor (a / b)) as F2.
      rewrite inject_Z_plus in F2. change (inject_Z 1) with 1 in F2.
      pose proof (Qdiv_mul a b ltac:(lra)) as Ea.
      generalize dependent (a / b). intros r Hr Hr' F1 F2 Ea.
      assert (Qfloor r < 1)%Z by (rewrite Zlt_Qlt; change (inject_Z 1) with 1; nra).
      assert (0 <= Qfloor r)%Z by (change 0%Z with (Qfloor 0); apply Qfloor_resp_le; exact Hr).
      lia. }
    rewrite Hf. apply Qred_complete. change (inject_Z 0) with 0. ring. }
  set (m := c_fmod a b) in *.
  replace (xorb (Qlt_bool b 0) (Qlt_bool m 0)) with false
    by (rewrite (proj2 (Qlt_bool_false b 0)), (proj2 (Qlt_bool_false m 0)) by lra; reflexivity).
  rewrite Bool.andb_false_r. cbn [snd]. exact Em.
Qed.

Lemma is_double_spec (x : Q) : is_double x = true -> round64 x == x.
Proof. unfold is_double. apply Qeq_bool_iff. Qed.

Lemma np_remainder_canonical (a b : Q) : Qred (np_remainder a b) = np_remainder a b.
Proof.
  unfold np_remainder, npy_divmod.
  destruct (negb _ && _); cbn [snd]; unfold round64, c_fmod; apply Qred_complete, Qred_correct.
Qed.

Lemma lon_to_360_range (l : Q) : 0 <= lon_to_360 l <= 360.
Proof. apply np_remainder_range; reflexivity. Qed.

Lemma lon_to_360_small (l : Q) : 0 <= l < 360 -> lon_to_360 l = Qred l.
Proof. apply np_remainder_small. Qed.

Lemma lon_to_360_canonical (l : Q) : Qred (lon_to_360 l) = lon_to_360 l.
Proof. apply np_remainder_canonical. Qed.

Lemma lon_to_180_range (l : Q) : -180 <= lon_to_180 l <= 180.
Proof.
  unfold lon_to_180.
  pose proof (np_remainder_range (round64 (l + 180)) 360 ltac:(reflexivity) ltac:(reflexivity))
    as [H1 H2].
  assert (E1 : round64 (-180) == -180) by reflexivity.
  assert (E2 : round64 180 == 180) by reflexivity.
  pose proof (round64_mono (-180) (np_remainder (round64 (l + 180)) 360 - 180) ltac:(lra)).
  pose proof (round64_mono (np_remainder (round64 (l + 180)) 360 - 180) 180 ltac:(lra)).
  lra.
Qed.

(** [v // o == 1] for [v >= 0] and a float64 [o]. *)
Lemma origin_match_spec (o v : Q) :
  0 <= v -> is_double o = true -> origin_match o v = true <-> 0 < o /\ o <= v < 2 * o.
Proof.
  intros Hv Hd. apply is_double_spec in Hd. unfold origin_match.
  destruct (Qlt_le_dec 0 o) as [Ho|Ho].
  - destruct (np_floor_divide_pos v o Hv Ho Hd) as (f & -> & F0 & F1 & F2).
    rewrite Qeq_bool_iff. split.
    + intros Hf. split; [exact Ho|]. split.
      * apply Qnot_lt_le. intros C. specialize (F0 C). lra.
      * apply Qnot_le_lt. intros C. specialize (F2 C). lra.
    + intros (_ & H1 & H2). apply F1; assumption.
  - destruct (Qeq_dec o 0) as [E|E].
    + unfold np_floor_divide.
      replace (Qeq_bool o 0) with true by (symmetry; apply Qeq_bool_iff; exact E).
      split; [discriminate|lra].
    + assert (Hn : o < 0) by (apply Qle_lteq in Ho as [h|h]; [exact h|contradiction]).
      destruct (np_floor_divide_negdiv v o Hv Hn) as (f & -> & Hf).
      rewrite Qeq_bool_iff. split; lra.
Qed.

(** [l // o == 0] for [l >= 0] and a positive float64 [o]. *)
Lemma floor_div_is0_spec (o l : Q) :
  0 < o -> 0 <= l -> is_double o = true -> floor_div_is0 o l = true <-> l < o.
Proof.
  intros Ho Hl Hd. apply is_double_spec in Hd. unfold floor_div_is0.
  destruct (np_floor_divide_pos l o Hl Ho Hd) as (f & -> & F0 & F1 & F2).
  rewrite Qeq_bool_iff. split.
  - intros Hf. apply Qnot_le_lt. intros C.
    destruct (Qlt_le_dec l (2 * o)) as [C'|C'].
    + specialize (F1 C C'). lra.
    + specialize (F2 C'). lra.
  - exact F0.
Qed.

Close Scope Q_scope.

(* ------------------------------------------------------------------ *)
(** ** Auxiliary facts on [roll], [nonzero] and [assign_lon] *)

Fixpoint strictly_increasing (xs : list Q) : bool :=
  match xs with
  | a :: (b :: _) as tl => Qlt_bool a b && strictly_increasing tl
  | _ => true
  end.

Definition rotation_of {A} (ys xs : list A) : Prop :=
  exists j, ys = skipn j xs ++ firstn j xs.

Lemma roll_rotation {A} (k : Z) (xs : list A) : rotation_of (roll k xs) xs.
Proof.
  unfold roll, rotation_of. destruct (length xs) eqn:E.
  - exists 0%nat. simpl. rewrite app_nil_r. reflexivity.
  - eexists. reflexivity.
Qed.

Lemma Forall_rotation {A} (P : A -> Prop) (xs ys : list A) :
  rotation_of ys xs -> Forall P xs -> Forall P ys.
Proof.
  intros [j ->] H. rewrite <- (firstn_skipn j xs) in H.
  apply Forall_app in H as [H1 H2]. apply Forall_app. split; assumption.
Qed.

Lemma lons_rotation {A} (g1 g2 : grid A) :
  rotation_of g2 g1 -> rotation_of (lons g2) (lons g1).
Proof.
  intros [j ->]. exists j. unfold lons. rewrite map_app, skipn_map, firstn_map.
  reflexivity.
Qed.

Lemma lons_assign {A} (f : Q -> Q) (g : grid A) : lons (assign_lon f g) = map f (lons g).
Proof.
  unfold lons, assign_lon. rewrite !map_map. apply map_ext. intros [l a]. reflexivity.
Qed.



Lemma roll_neg_head {A} (i : nat) (xs : list A) :
  (i < length xs)%nat -> nth_error (roll (- Z.of_nat i) xs) 0 = nth_error xs i.
Proof.
  intros Hi. unfold roll. destruct (length xs) as [|n] eqn:E; [lia|].
  destruct i as [|i'].
  - rewrite Z.mod_0_l by lia. change (Z.to_nat 0) with 0%nat.
    rewrite Nat.sub_0_r, <- E, skipn_all, firstn_all.
    reflexivity.
  - assert (Hm : (- Z.of_nat (S i')) mod Z.of_nat (S n) = Z.of_nat (S n) - Z.of_nat (S i')).
    { rewrite Z.mod_opp_l_nz by (rewrite ?Z.mod_small; lia).
      rewrite Z.mod_small by lia. reflexivity. }
    rewrite Hm.
    replace (S n - Z.to_nat (Z.of_nat (S n) - Z.of_nat (S i')))%nat with (S i') by lia.
    rewrite nth_error_app1 by (rewrite length_skipn; lia).
    rewrite nth_error_skipn. f_equal. lia.
Qed.

Lemma nonzero_from_spec (m : list bool) (k i : nat) :
  nth_error (nonzero_from k m) 0 = Some i ->
  (k <= i)%nat /\ (i - k < length m)%nat /\ nth_error m (i - k) = Some true.
Proof.
  revert k. induction m as [|b m IH]; intros k H; simpl in H; [discriminate|].
  destruct b.
  - simpl in H. inversion H; subst. rewrite Nat.sub_diag. simpl. repeat split; auto; lia.
  - destruct (IH (S k) H) as (H1 & H2 & H3).
    replace (i - k)%nat with (S (i - S k)) by lia. simpl. repeat split; auto; lia.
Qed.

Lemma nonzero_from_nil (m : list bool) (k : nat) :
  nonzero_from k m = [] <-> ~ In true m.
Proof.
  revert k. induction m as [|b m IH]; intros k; simpl.
  - split; auto.
  - destruct b; simpl.
    + split; [discriminate|]. intros H. exfalso. apply H. left. reflexivity.
    + rewrite IH. split; intros H; [intros [Hc|Hc]; [discriminate|auto] | auto].
Qed.

Lemma roll_map {A B} (f : A -> B) (k : Z) (xs : list A) :
  map f (roll k xs) = roll k (map f xs).
Proof.
  unfold roll. rewrite length_map. destruct (length xs); [reflexivity|].
  rewrite map_app, skipn_map, firstn_map. reflexivity.
Qed.

Lemma fix_lons_360_shape {A} (g g' : grid A) (sp : subset_params) :
  lon_range sp = 360 -> fix_lons g sp = Ok g' ->
  let m := assign_lon lon_to_360 g in
  exists i, g' = roll (- Z.of_nat i) m /\ (i < length m)%nat /\
            nth_error (map (origin_match (lon_origin sp)) (lons m)) i = Some true.
Proof.
  intros Hr H m. unfold fix_lons in H. rewrite Hr in H. simpl in H.
  unfold py_index, nonzero in H. fold m in H.
  destruct (nth_error (nonzero_from 0 (map (origin_match (lon_origin sp)) (lons m))) 0)
    as [i|] eqn:E; [|discriminate].
  simpl in H. inversion H; subst g'.
  apply nonzero_from_spec in E as (_ & Hl & Hn). rewrite Nat.sub_0_r in *.
  rewrite length_map in Hl. unfold lons in Hl. rewrite length_map in Hl.
  exists i. repeat split; auto.
Qed.

Lemma fix_lons_360_head {A} (g g' : grid A) (sp : subset_params) :
  lon_range sp = 360 -> fix_lons g sp = Ok g' ->
  exists v rest, lons g' = v :: rest /\ origin_match (lon_origin sp) v = true /\
                 (0 <= v <= 360)%Q.
Proof.
  intros Hr H. destruct (fix_lons_360_shape g g' sp Hr H) as (i & -> & Hi & Hn).
  set (m := assign_lon lon_to_360 g) in *.
  rewrite nth_error_map in Hn.
  destruct (nth_error (lons m) i) as [v|] eqn:Ev; simpl in Hn; [|discriminate].
  inversion Hn as [Hm].
  assert (Hv : (0 <= v <= 360)%Q).
  { unfold m in Ev. rewrite lons_assign, nth_error_map in Ev.
    destruct (nth_error (lons g) i) as [l|]; simpl in Ev; inversion Ev.
    apply lon_to_360_range. }
  unfold lons. rewrite roll_map. fold (lons m).
  pose proof (roll_neg_head i (lons m)) as Hh.
  unfold lons in Hh at 1. rewrite length_map in Hh. specialize (Hh Hi).
  destruct (roll (- Z.of_nat i) (lons m)) as [|v' rest] eqn:Er.
  - exfalso. rewrite Ev in Hh. discriminate.
  - exists v', rest. split; [reflexivity|].
    rewrite Ev in Hh. simpl in Hh. inversion Hh; subst. auto.
Qed.

Lemma fix_lons_180_shape {A} (g g' : grid A) (sp : subset_params) :
  lon_range sp = 180 -> fix_lons g sp = Ok g' ->
  let g1 := if existsb (fun l => Qlt_bool 180 l) (lons g)
            then assign_lon lon_to_180 g else g in
  rotation_of g' g1 /\ exists l0 rest, lons g1 = l0 :: rest /\
     g' = if Qlt_bool (-175) l0 then roll (Z.of_nat (length g1) / 2) g1 else g1.
Proof.
  intros Hr H g1. unfold fix_lons in H. rewrite Hr in H. simpl in H. fold g1 in H.
  unfold py_index in H. destruct (lons g1) as [|l0 rest] eqn:El; simpl in H; [discriminate|].
  split.
  - destruct (Qlt_bool (-175) l0); inversion H; subst.
    + apply roll_rotation.
    + exists 0%nat. simpl. rewrite app_nil_r. reflexivity.
  - exists l0, rest. split; [reflexivity|]. destruct (Qlt_bool (-175) l0); inversion H; reflexivity.
Qed.

Lemma existsb_false_Forall {X} (f : X -> bool) (xs : list X) :
  existsb f xs = false -> Forall (fun x => f x = false) xs.
Proof.
  induction xs as [|x xs IH]; simpl; intros H; constructor.
  - destruct (f x); [discriminate|reflexivity].
  - apply IH. destruct (f x); [discriminate|exact H].
Qed.


Lemma lons_mod360_range {A} (g : grid A) :
  Forall (fun l => 0 <= l <= 360)%Q (lons (assign_lon lon_to_360 g)).
Proof.
  rewrite lons_assign. apply Forall_forall. intros x Hx.
  apply in_map_iff in Hx as (l & <- & _). apply lon_to_360_range.
Qed.

Lemma lons_mod360_canonical {A} (g : grid A) :
  Forall (fun l => Qred l = l) (lons (assign_lon lon_to_360 g)).
Proof.
  rewrite lons_assign. apply Forall_forall. intros x Hx.
  apply in_map_iff in Hx as (l & <- & _). apply lon_to_360_canonical.
Qed.

Lemma lons_map180_range {A} (g : grid A) :
  Forall (fun l => -180 <= l <= 180)%Q (lons (assign_lon lon_to_180 g)).
Proof.
  rewrite lons_assign. apply Forall_forall. intros x Hx.
  apply in_map_iff in Hx as (l & <- & _). apply lon_to_180_range.
Qed.

Lemma lons_mod360_small {A} (g : grid A) :
  Forall (fun l => 0 <= l < 360)%Q (lons g) ->
  lons (assign_lon lon_to_360 g) = map Qred (lons g).
Proof.
  intros H. rewrite lons_assign. apply map_ext_in.
  intros l Hl. rewrite Forall_forall in H. apply lon_to_360_small, H, Hl.
Qed.

Lemma fix_lons_360_lons {A} (g g' : grid A) (sp : subset_params) :
  lon_range sp = 360 -> fix_lons g sp = Ok g' ->
  Forall (fun l => 0 <= l <= 360)%Q (lons g') /\ Forall (fun l => Qred l = l) (lons g').
Proof.
  intros Hr H. destruct (fix_lons_360_shape g g' sp Hr H) as (i & Hg & _).
  assert (Hrot : rotation_of (lons g') (lons (assign_lon lon_to_360 g)))
    by (apply lons_rotation; rewrite Hg; apply roll_rotation).
  split; eapply Forall_rotation; try exact Hrot.
  - apply lons_mod360_range.
  - apply lons_mod360_canonical.
Qed.

(** Concrete grids used below. *)
Definition sp360_90 : subset_params := {| lon_range := 360; lon_origin := 90 |}.
Definition sp360_0 : subset_params := {| lon_range := 360; lon_origin := 0 |}.
Definition g4 : grid unit := [(0, tt); (90, tt); (180, tt); (270, tt)]%Q.
Definition g4_rolled : grid unit := [(90, tt); (180, tt); (270, tt); (0, tt)]%Q.
(** The float64 literal [-1e-15]. *)
Definition lon_m1e15 : Q := round64 (- (1 # 1000000000000000)).
Definition g_eps : grid unit := [(lon_m1e15, tt); (90, tt); (180, tt); (270, tt)]%Q.
Definition g_eps_rolled : grid unit := [(90, tt); (180, tt); (270, tt); (360, tt)]%Q.

(* ------------------------------------------------------------------ *)
(** ** C1: shape of the [fix_lons] result *)

(** C1 (counterexample): on the global grid [0, 90, 180, 270] with
    [lon_range = 360] and [lon_origin = 90], [fix_lons] returns the
    longitudes [90, 180, 270, 0], which are not strictly increasing; and on
    [-1e-15, 90, 180, 270] it returns [90, 180, 270, 360], since
    [-1e-15 % 360] rounds to [360.0]: a longitude outside [[0,360)]. *)
Lemma fix_lons_not_monotone :
  fix_lons g4 sp360_90 = Ok g4_rolled /\
  strictly_increasing (lons g4_rolled) = false /\
  is_double lon_m1e15 = true /\ Qlt_bool lon_m1e15 0 = true /\
  fix_lons g_eps sp360_90 = Ok g_eps_rolled.
Proof. repeat split; vm_compute; reflexivity. Qed.

(** C1 (amended): [fix_lons] rolls the grid circularly along lon after
    mapping the longitudes.  In the 360 branch the result is a rotation of
    the grid with longitudes [lon % 360], every result longitude is in
    [[0,360]] (360 itself is reached by rounding), and, for a float64
    [lon_origin], the first one [v] has [lon_origin <= v < 2 * lon_origin].
    In the 180 branch the longitudes are mapped by
    [((lon + 180) % 360) - 180] when some longitude exceeds 180, and kept
    otherwise; the result is that grid, rolled by half its length when its
    first longitude exceeds [-175]; when mapped, every result longitude is
    in [[-180,180]]. *)
Theorem fix_lons_range_and_roll {A} (g g' : grid A) (sp : subset_params) :
  fix_lons g sp = Ok g' ->
  (lon_range sp = 360 ->
     rotation_of g' (assign_lon lon_to_360 g) /\
     Forall (fun l => 0 <= l <= 360)%Q (lons g') /\
     (is_double (lon_origin sp) = true ->
        exists v rest, lons g' = v :: rest /\ (lon_origin sp <= v < 2 * lon_origin sp)%Q)) /\
  (lon_range sp = 180 ->
     let g1 := if existsb (fun l => Qlt_bool 180 l) (lons g)
               then assign_lon lon_to_180 g else g in
     rotation_of g' g1 /\
     (exists l0 rest, lons g1 = l0 :: rest /\
        g' = if Qlt_bool (-175) l0 then roll (Z.of_nat (length g1) / 2) g1 else g1) /\
     (existsb (fun l => Qlt_bool 180 l) (lons g) = true ->
        Forall (fun l => -180 <= l <= 180)%Q (lons g'))).
Proof.
  intros H. split.
  - intros Hr.
    destruct (fix_lons_360_shape g g' sp Hr H) as (i & Hg & _).
    split; [rewrite Hg; apply roll_rotation|].
    split; [exact (proj1 (fix_lons_360_lons g g' sp Hr H))|].
    intros Hd. destruct (fix_lons_360_head g g' sp Hr H) as (v & rest & Hl & Hm & Hv).
    apply (origin_match_spec _ _ (proj1 Hv) Hd) in Hm.
    exists v, rest. split; [exact Hl|]. apply Hm.
  - intros Hr g1. destruct (fix_lons_180_shape g g' sp Hr H) as [Hrot Hsh].
    split; [exact Hrot|]. split; [exact Hsh|].
    intros Hex. eapply Forall_rotation; [apply lons_rotation, Hrot|].
    unfold g1. rewrite Hex. apply lons_map180_range.
Qed.

Lemma fix_lons_range_and_roll_witness :
  exists v rest, lons g4_rolled = v :: rest /\ (90 <= v < 2 * 90)%Q.
Proof.
  destruct (proj1 (fix_lons_range_and_roll g4 g4_rolled sp360_90
                     ltac:(vm_compute; reflexivity)) eq_refl) as (_ & _ & H).
  exact (H ltac:(vm_compute; reflexivity)).
Defined.

(* ------------------------------------------------------------------ *)
(** ** C2: applying [fix_lons] twice *)




(* ------------------------------------------------------------------ *)
(** ** C10: when the 360 branch of [fix_lons] returns *)

(** C10: for a grid with float64 longitudes in [[0,360)] and a float64
    [lon_origin], the 360 branch returns a grid exactly when
    [lon_origin > 0] and some longitude [v] satisfies
    [lon_origin <= v < 2 * lon_origin] ([v // lon_origin == 1]); with
    [lon_origin = 0], a negative one, or one above every longitude the
    match set is empty and the call raises. *)
Theorem fix_lons_360_precondition {A} (g : grid A) (sp : subset_params) :
  lon_range sp = 360 -> is_double (lon_origin sp) = true ->
  Forall (fun l => 0 <= l < 360)%Q (lons g) ->
  (exists g', fix_lons g sp = Ok g') <->
  (0 < lon_origin sp /\ exists v, In v (lons g) /\ lon_origin sp <= v < 2 * lon_origin sp)%Q.
Proof.
  intros Hr Hd Hrange. split.
  - intros (g' & H).
    destruct (fix_lons_360_shape g g' sp Hr H) as (i & _ & _ & Hn).
    rewrite nth_error_map, lons_mod360_small, nth_error_map in Hn by exact Hrange.
    destruct (nth_error (lons g) i) as [v|] eqn:Ev; simpl in Hn; [|discriminate].
    inversion Hn as [Hm].
    assert (Hin : In v (lons g)) by (eapply nth_error_In; exact Ev).
    rewrite Forall_forall in Hrange. specialize (Hrange v Hin).
    pose proof (Qred_correct v) as Ev'.
    apply origin_match_spec in Hm; [|lra|exact Hd].
    split; [lra|]. exists v. split; [exact Hin|lra].
  - intros (Ho & v & Hin & Hv).
    unfold fix_lons. rewrite Hr. simpl. unfold py_index, nonzero.
    rewrite lons_mod360_small by exact Hrange.
    destruct (nonzero_from 0 (map (origin_match (lon_origin sp)) (map Qred (lons g))))
      as [|i rest] eqn:E.
    + exfalso. apply nonzero_from_nil in E. apply E.
      rewrite map_map. apply in_map_iff. exists v. split; [|exact Hin].
      pose proof (Qred_correct v) as Ev'.
      rewrite Forall_forall in Hrange. specialize (Hrange v Hin).
      apply origin_match_spec; [lra|exact Hd|lra].
    + simpl. eexists. reflexivity.
Qed.

Lemma fix_lons_360_precondition_witness :
  ~ (exists g', fix_lons g4 sp360_0 = Ok g').
Proof.
  intros H.
  apply (fix_lons_360_precondition g4 sp360_0 eq_refl ltac:(vm_compute; reflexivity)) in H.
  - destruct H as [H _]. vm_compute in H. discriminate.
  - vm_compute. repeat constructor; discriminate.
Defined.

(* ------------------------------------------------------------------ *)
(** ** C3: the overwrite gate *)

Lemma combine_map_fst {X Y} (l : list X) (f : X -> Y) : map fst (combine l (map f l)) = l.
Proof. induction l as [|x l IH]; simpl; congruence. Qed.

Lemma combine_filter_snd {X Y} (l : list X) (f : X -> Y) (h : Y -> bool) :
  map fst (filter (fun pe => h (snd pe)) (combine l (map f l))) = filter (fun x => h (f x)) l.
Proof.
  induction l as [|x l IH]; simpl; [reflexivity|].
  destruct (h (f x)); simpl; congruence.
Qed.

Lemma combine_in_snd {X Y} (l : list X) (f : X -> Y) (x : X) (y : Y) :
  In (x, y) (combine l (map f l)) -> f x = y.
Proof.
  induction l as [|a l IH]; simpl; [contradiction|].
  intros [H|H]; [inversion H; reflexivity|auto].
Qed.

Lemma forallb_map_id {X} (f : X -> bool) (l : list X) :
  forallb (fun b => b) (map f l) = forallb f l.
Proof. induction l; simpl; congruence. Qed.

Lemma existsb_map_id {X} (f : X -> bool) (l : list X) :
  existsb (fun b => b) (map f l) = existsb f l.
Proof. induction l; simpl; congruence. Qed.

Lemma path_exists_filter (fs : disk) (p q : string) :
  q <> p -> path_exists fs q = true ->
  path_exists (filter (fun r => negb (String.eqb p r)) fs) q = true.
Proof.
  unfold path_exists. intros Hne H. apply existsb_exists in H as (r & Hin & Hr).
  apply String.eqb_eq in Hr. subst r. apply existsb_exists. exists q. split.
  - apply filter_In. split; [exact Hin|].
    destruct (String.eqb_spec p q); [congruence|reflexivity].
  - apply String.eqb_refl.
Qed.

Lemma save_subsets_effects (ov : bool) (dir : string) (outs : list (string * bool)) (fs : disk) :
  let tr := fst (save_subsets ov dir outs fs) in
  writes tr = map fst (filter (fun pe => negb (negb ov && snd pe)) outs) /\
  removes tr = [] /\ loads tr = 0%nat.
Proof.
  revert fs. induction outs as [|[p e] outs IH]; intros fs; simpl; [auto|].
  destruct (negb ov && e) eqn:He; simpl.
  - destruct (IH fs) as (H1 & H2 & H3). auto.
  - destruct (path_exists fs dir); simpl;
      [destruct (IH (p :: fs)) as (H1 & H2 & H3) | destruct (IH (p :: dir :: fs)) as (H1 & H2 & H3)];
      unfold writes, removes, loads in *; simpl; rewrite ?H1, ?H2, ?H3; auto.
Qed.

Lemma remove_existing_effects (outs : list (string * bool)) (fs : disk) :
  NoDup (map fst outs) ->
  (forall p, In (p, true) outs -> path_exists fs p = true) ->
  exists tr fs', remove_existing outs fs = Ok (tr, fs') /\
    removes tr = map fst (filter snd outs) /\ writes tr = [] /\ loads tr = 0%nat.
Proof.
  revert fs. induction outs as [|[p e] outs IH]; intros fs Hnd Hex; simpl.
  - exists [], fs. auto.
  - inversion Hnd as [|? ? Hnin Hnd']; subst.
    destruct e.
    + unfold os_remove. rewrite (Hex p (or_introl eq_refl)). simpl.
      destruct (IH (filter (fun q => negb (String.eqb p q)) fs) Hnd') as (tr & fs' & Hr & H1 & H2 & H3).
      { intros q Hq. apply path_exists_filter.
        - intros ->. apply Hnin. apply (in_map fst _ (p, true)). exact Hq.
        - apply Hex. right. exact Hq. }
      rewrite Hr. simpl. exists (Remove p :: Warn "files deleted (OVERWRITE=TRUE)" :: tr), fs'.
      unfold writes, removes, loads in *. simpl. rewrite H1, H2, H3. auto.
    + apply IH; [exact Hnd'|]. intros q Hq. apply Hex. right. exact Hq.
Qed.

(** C3: the gate before the grid load has three outcomes.  (a) Every
    output exists and [overwrite] is off: a single skip warning, no load,
    no write, the disk unchanged.  (b) Some output exists and [overwrite]
    is on: the existing outputs are removed, then the grid is loaded and
    every output written.  (c) Otherwise: the grid is loaded and exactly
    the missing outputs are written. *)
Theorem overwrite_gate_outcomes (overwrite : bool) (dir label : string)
        (output_fns : list string) (fs : disk) :
  NoDup output_fns ->
  (overwrite = false -> forallb (path_exists fs) output_fns = true ->
     exists w, process_url overwrite dir label output_fns fs = Ok ([Warn w], fs)) /\
  (overwrite = true -> existsb (path_exists fs) output_fns = true ->
     exists pre post fs',
       process_url overwrite dir label output_fns fs = Ok (pre ++ LoadGrid :: post, fs') /\
       removes pre = filter (path_exists fs) output_fns /\ writes pre = [] /\
       loads pre = 0%nat /\
       writes post = output_fns /\ removes post = [] /\ loads post = 0%nat) /\
  ((overwrite = false /\ forallb (path_exists fs) output_fns = false \/
    overwrite = true /\ existsb (path_exists fs) output_fns = false) ->
     exists post fs',
       process_url overwrite dir label output_fns fs = Ok (LoadGrid :: post, fs') /\
       writes post = filter (fun p => negb (path_exists fs p)) output_fns /\
       removes post = [] /\ loads post = 0%nat).
Proof.
  intros Hnd. unfold process_url.
  rewrite forallb_map_id, existsb_map_id.
  set (outs := combine output_fns (map (path_exists fs) output_fns)).
  split; [|split].
  - intros -> Hall. rewrite Hall. simpl. eexists. reflexivity.
  - intros -> Hany. simpl. rewrite Hany.
    destruct (remove_existing_effects outs fs) as (tr & fs1 & Hr & H1 & H2 & H3).
    { unfold outs. rewrite combine_map_fst. exact Hnd. }
    { intros p Hp. apply (combine_in_snd _ _ _ _ Hp). }
    rewrite Hr. simpl.
    destruct (save_subsets_effects true dir outs fs1) as (W & R & L).
    exists tr, (fst (save_subsets true dir outs fs1)), (snd (save_subsets true dir outs fs1)).
    repeat split; auto.
    + rewrite H1. unfold outs.
      exact (combine_filter_snd output_fns (path_exists fs) (fun b => b)).
    + rewrite W. unfold outs.
      rewrite (combine_filter_snd output_fns (path_exists fs) (fun b => negb (negb true && b))).
      simpl. clear. induction output_fns as [|x l IH]; simpl; congruence.
  - intros Hc.
    assert (Hr1 : (if existsb (path_exists fs) output_fns
                   then if overwrite then remove_existing outs fs else Ok ([], fs)
                   else Ok ([], fs)) = Ok ([], fs)).
    { destruct Hc as [[-> _] | [-> ->]]; [destruct (existsb _ _)|]; reflexivity. }
    assert (Hskip : (negb overwrite && forallb (path_exists fs) output_fns) = false).
    { destruct Hc as [[-> ->] | [-> _]]; reflexivity. }
    rewrite Hskip, Hr1. simpl.
    destruct (save_subsets_effects overwrite dir outs fs) as (W & R & L).
    eexists _, _. split; [reflexivity|]. repeat split; auto.
    rewrite W. unfold outs.
    rewrite (combine_filter_snd output_fns (path_exists fs) (fun b => negb (negb overwrite && b))).
    destruct Hc as [[-> _] | [-> Hnone]].
    + reflexivity.
    + simpl. apply existsb_false_Forall in Hnone. clear - Hnone.
      induction Hnone as [|x l Hx _ IH]; simpl; [reflexivity|].
      rewrite Hx. simpl. f_equal. exact IH.
Qed.

Open Scope string_scope.

Lemma overwrite_gate_outcomes_witness :
  exists w, process_url false "m/" "pr day M historical r1" ["m/a.nc"; "m/b.nc"] ["m/a.nc"; "m/b.nc"]
            = Ok ([Warn w], ["m/a.nc"; "m/b.nc"]).
Proof.
  apply (proj1 (overwrite_gate_outcomes false "m/" "pr day M historical r1"
                  ["m/a.nc"; "m/b.nc"] ["m/a.nc"; "m/b.nc"]
                  ltac:(repeat constructor; simpl; intuition discriminate)) eq_refl eq_refl).
Defined.

Close Scope string_scope.

(* ------------------------------------------------------------------ *)
(** ** C4: end-date substitution for 30-day-month calendars *)

Open Scope string_scope.

Definition no_dash (s : string) : bool :=
  forallb (fun c => negb (Ascii.eqb c "-"%char)) (list_ascii_of_string s).

Definition months : list string :=
  ["01"; "02"; "03"; "04"; "05"; "06"; "07"; "08"; "09"; "10"; "11"; "12"].

Definition days_to_30 : list string :=
  ["01"; "02"; "03"; "04"; "05"; "06"; "07"; "08"; "09"; "10";
   "11"; "12"; "13"; "14"; "15"; "16"; "17"; "18"; "19"; "20";
   "21"; "22"; "23"; "24"; "25"; "26"; "27"; "28"; "29"; "30"].

Lemma re_sub_no_dash_prefix (rep y t : string) :
  no_dash y = true -> re_sub "-31" rep (y ++ t) = y ++ re_sub "-31" rep t.
Proof.
  unfold re_sub. induction y as [|c y IH]; intros H; [reflexivity|].
  unfold no_dash in H. simpl in H. apply andb_prop in H as [Hc Hy].
  cbn [re_sub_go String.append String.prefix].
  destruct (Ascii.ascii_dec "-"%char c) as [<-|Hne]; [discriminate|].
  rewrite IH by exact Hy. reflexivity.
Qed.

Lemma re_sub_month_day_31 :
  forallb (fun m => String.eqb (re_sub "-31" "-30" ("-" ++ m ++ "-31")) ("-" ++ m ++ "-30"))
          months = true.
Proof. vm_compute. reflexivity. Qed.

Lemma re_sub_month_day_other :
  forallb (fun m => forallb (fun d =>
             String.eqb (re_sub "-31" "-30" ("-" ++ m ++ "-" ++ d)) ("-" ++ m ++ "-" ++ d))
             days_to_30) months = true.
Proof. vm_compute. reflexivity. Qed.

(** C4: when the grid's maximum time has day 30 or its first time value
    is a [Datetime360Day], the end date is sliced with every ["-31"]
    replaced by ["-30"], otherwise literally; for a date [y-mm-31] this
    gives [y-mm-30] and leaves [y-mm-dd] with [dd <= 30] unchanged; so on
    a 360-day grid ["y-12-31"] and ["y-12-30"] give the same subset. *)
Theorem time_subset_end_day {G} (time_axis : G -> list time_val)
        (sel_time : G -> string -> string -> G) (ds ds_tmp : G) (t_start t_end : string) :
  time_axis ds <> [] ->
  let cal30 := (match time_max (time_axis ds) with Some m => (day m =? 30)%Z | None => false end) ||
               (match time_axis ds with
                | t0 :: _ => match tv_type t0 with Datetime360Day => true | _ => false end
                | [] => false end) in
  time_subset time_axis sel_time ds ds_tmp t_start t_end =
    Ok (sel_time ds_tmp t_start (if cal30 then re_sub "-31" "-30" t_end else t_end)) /\
  (forall y m, no_dash y = true -> In m months ->
     re_sub "-31" "-30" (y ++ "-" ++ m ++ "-31") = y ++ "-" ++ m ++ "-30") /\
  (forall y m d, no_dash y = true -> In m months -> In d days_to_30 ->
     re_sub "-31" "-30" (y ++ "-" ++ m ++ "-" ++ d) = y ++ "-" ++ m ++ "-" ++ d) /\
  ((exists t0 rest, time_axis ds = t0 :: rest /\ tv_type t0 = Datetime360Day) ->
   forall y, no_dash y = true ->
     time_subset time_axis sel_time ds ds_tmp t_start (y ++ "-12-31") =
     time_subset time_axis sel_time ds ds_tmp t_start (y ++ "-12-30")).
Proof.
  intros Hne cal30. split; [|split; [|split]].
  - unfold time_subset, cal30. destruct (time_axis ds) as [|t0 rest]; [contradiction|].
    simpl. destruct (_ || _); reflexivity.
  - intros y m Hy Hm. rewrite re_sub_no_dash_prefix by exact Hy.
    pose proof re_sub_month_day_31 as H. rewrite forallb_forall in H.
    specialize (H m Hm). apply String.eqb_eq in H. rewrite H. reflexivity.
  - intros y m d Hy Hm Hd. rewrite re_sub_no_dash_prefix by exact Hy.
    pose proof re_sub_month_day_other as H. rewrite forallb_forall in H.
    specialize (H m Hm). rewrite forallb_forall in H.
    specialize (H d Hd). apply String.eqb_eq in H. rewrite H. reflexivity.
  - intros (t0 & rest & Ht & H360) y Hy. unfold time_subset. rewrite Ht. simpl.
    rewrite H360, orb_true_r.
    rewrite !re_sub_no_dash_prefix by exact Hy. reflexivity.
Qed.

Definition tgrid_360 : list time_val :=
  [ {| tv_date := mkdate 2015 1 1; tv_type := Datetime360Day |};
    {| tv_date := mkdate 2100 12 30; tv_type := Datetime360Day |} ].

Lemma time_subset_end_day_witness :
  time_subset (fun _ : unit => tgrid_360) (fun _ a b => tt) tt tt "2015-01-01" "2100-12-31" =
  time_subset (fun _ : unit => tgrid_360) (fun _ a b => tt) tt tt "2015-01-01" "2100-12-30".
Proof.
  apply (proj2 (proj2 (proj2 (time_subset_end_day (fun _ : unit => tgrid_360)
                                 (fun _ a b => tt) tt tt "2015-01-01" "2100-12-31"
                                 ltac:(discriminate))))
           (ex_intro _ _ (ex_intro _ _ (conj eq_refl eq_refl))) "2100" eq_refl).
Defined.

Close Scope string_scope.

(* ------------------------------------------------------------------ *)
(** ** C8: duplicate-coordinate compensation *)

(** Keep the entries whose mask bit is set. *)
Fixpoint mask {A} (m : list bool) (xs : list A) : list A :=
  match m, xs with
  | b :: m', x :: xs' => if b then x :: mask m' xs' else mask m' xs'
  | _, _ => []
  end.

Lemma map_result_length {A B} (f : A -> result B) (xs : list A) (ys : list B) :
  map_result f xs = Ok ys -> length ys = length xs.
Proof.
  revert ys. induction xs as [|x xs IH]; simpl; intros ys H.
  - inversion H. reflexivity.
  - destruct (f x) as [y|e]; simpl in H; [|discriminate].
    destruct (map_result f xs) as [ys'|e]; simpl in H; [|discriminate].
    inversion H; subst. simpl. f_equal. apply IH. reflexivity.
Qed.

Lemma isel_nonzero_from {A} (m : list bool) (pre xs : list A) :
  length m = length xs ->
  map_result (py_index (pre ++ xs)) (nonzero_from (length pre) m) = Ok (mask m xs).
Proof.
  revert pre xs. induction m as [|b m IH]; intros pre xs Hl; simpl; [reflexivity|].
  destruct xs as [|x xs]; [discriminate|]. simpl in Hl. injection Hl as Hl.
  assert (Hs : S (length pre) = length (pre ++ [x])) by (rewrite length_app; simpl; lia).
  assert (Ha : pre ++ x :: xs = (pre ++ [x]) ++ xs) by (rewrite <- app_assoc; reflexivity).
  destruct b; simpl.
  - unfold py_index at 1. rewrite nth_error_app2, Nat.sub_diag by lia. simpl.
    rewrite Hs, Ha, IH by exact Hl. reflexivity.
  - rewrite Hs, Ha, IH by exact Hl. reflexivity.
Qed.

Lemma isel_nonzero {A} (m : list bool) (xs : list A) :
  length m = length xs -> isel (nonzero m) xs = Ok (mask m xs).
Proof. intros Hl. exact (isel_nonzero_from m [] xs Hl). Qed.

Lemma map_result_isel_nonzero {A} (m : list bool) (xss : list (list A)) :
  Forall (fun xs => length xs = length m) xss ->
  map_result (isel (nonzero m)) xss = Ok (map (mask m) xss).
Proof.
  induction 1 as [|xs xss Hx _ IH]; simpl; [reflexivity|].
  rewrite isel_nonzero by congruence. rewrite IH. reflexivity.
Qed.

Lemma mask_length_count {A V} (isnan : V -> bool) (ref : list V) (xs : list A) :
  length ref = length xs ->
  (length (mask (map (fun v => negb (isnan v)) ref) xs) + length (filter isnan ref) = length xs)%nat.
Proof.
  revert xs. induction ref as [|v ref IH]; intros [|x xs] Hl; simpl in *; try discriminate; auto.
  injection Hl as Hl. destruct (isnan v); simpl; rewrite <- (IH xs Hl); lia.
Qed.

Open Scope string_scope.

Definition lat_msg : string :=
  "has duplicate lat values; attempting to compensate by dropping lat values that are nan in the main variable in the first timestep".
Definition lon_msg : string :=
  "has duplicate lon values; attempting to compensate by dropping lon values that are nan in the main variable in the first timestep".

(** For a variable indexed [time][lat][lon] (no level axis): when the
    lat (resp. lon) axis has duplicates after rounding, the
    compensation keeps exactly the indices where the primary variable is
    not NaN at the reference slice ([time=1], [lon=1] resp. [lat=1]),
    in order, drops as many indices as that slice has NaNs, and emits a
    warning naming the axis; when only lat has duplicates the lon step
    changes nothing, so the whole compensation is the lat step. *)
Theorem dup_fix_drops_nan {C V} (C_eq_dec : forall x y : C, {x = y} + {x <> y})
        (round10 : C -> C) (isnan : V -> bool) (g : dgrid C V) :
  (forall ref,
     n_unique C_eq_dec round10 (d_lat g) <> length (d_lat g) ->
     ref_slice_lat g = Ok ref ->
     Forall (fun slab => length slab = length (d_lat g)) (d_var g) ->
     let keep := map (fun v => negb (isnan v)) ref in
     dup_fix_lat C_eq_dec round10 isnan g =
       Ok ({| d_lat := mask keep (d_lat g); d_lon := d_lon g;
              d_var := map (mask keep) (d_var g); var_has_lat := var_has_lat g |}, [lat_msg]) /\
     (length (mask keep (d_lat g)) + length (filter isnan ref) = length (d_lat g))%nat) /\
  (forall ref,
     n_unique C_eq_dec round10 (d_lon g) <> length (d_lon g) ->
     ref_slice_lon g = Ok ref ->
     Forall (Forall (fun row => length row = length (d_lon g))) (d_var g) ->
     let keep := map (fun v => negb (isnan v)) ref in
     dup_fix_lon C_eq_dec round10 isnan g =
       Ok ({| d_lat := d_lat g; d_lon := mask keep (d_lon g);
              d_var := map (map (mask keep)) (d_var g); var_has_lat := var_has_lat g |}, [lon_msg]) /\
     (length (mask keep (d_lon g)) + length (filter isnan ref) = length (d_lon g))%nat) /\
  (var_has_lat g = true ->
     n_unique C_eq_dec round10 (d_lon g) = length (d_lon g) ->
     dup_fix C_eq_dec round10 isnan g = dup_fix_lat C_eq_dec round10 isnan g).
Proof.
  split; [|split].
  - intros ref Hdup Href Hslabs keep.
    assert (Hlen : length ref = length (d_lat g)).
    { unfold ref_slice_lat, py_index in Href.
      destruct (nth_error (d_var g) 1) as [slab|] eqn:Es; simpl in Href; [|discriminate].
      rewrite (map_result_length _ _ _ Href).
      rewrite Forall_forall in Hslabs. apply Hslabs. eapply nth_error_In. exact Es. }
    unfold dup_fix_lat. apply Nat.eqb_neq in Hdup. rewrite Hdup. simpl.
    rewrite Href. simpl. unfold isel_lat.
    rewrite isel_nonzero by (unfold keep; rewrite length_map; exact Hlen). simpl.
    rewrite map_result_isel_nonzero.
    + split; [reflexivity|]. apply mask_length_count. exact Hlen.
    + eapply Forall_impl; [|exact Hslabs]. intros slab Hs. simpl.
      unfold keep. rewrite length_map. congruence.
  - intros ref Hdup Href Hrows keep.
    assert (Hlen : length ref = length (d_lon g)).
    { unfold ref_slice_lon in Href. unfold py_index at 1 in Href.
      destruct (nth_error (d_var g) 1) as [slab|] eqn:Es; [|discriminate].
      cbn [bind] in Href. unfold py_index in Href.
      destruct (nth_error slab 1) as [row|] eqn:Er; [|discriminate].
      injection Href as <-.
      rewrite Forall_forall in Hrows.
      specialize (Hrows slab ltac:(eapply nth_error_In; exact Es)).
      rewrite Forall_forall in Hrows. apply Hrows. eapply nth_error_In. exact Er. }
    unfold dup_fix_lon. apply Nat.eqb_neq in Hdup. rewrite Hdup. simpl.
    rewrite Href. simpl. unfold isel_lon.
    rewrite isel_nonzero by (unfold keep; rewrite length_map; exact Hlen). simpl.
    assert (Hm : map_result (map_result (isel (nonzero keep))) (d_var g) =
                 Ok (map (map (mask keep)) (d_var g))).
    { induction Hrows as [|slab slabs Hs _ IH]; simpl; [reflexivity|].
      rewrite map_result_isel_nonzero.
      - rewrite IH. reflexivity.
      - eapply Forall_impl; [|exact Hs]. intros row Hr. simpl.
        unfold keep. rewrite length_map. congruence. }
    unfold keep in Hm. rewrite Hm. split; [reflexivity|]. apply mask_length_count. exact Hlen.
  - intros Hlat Hlon. unfold dup_fix. rewrite Hlat.
    destruct (dup_fix_lat C_eq_dec round10 isnan g) as [[g1 w]|e] eqn:E; simpl; [|reflexivity].
    assert (Hl1 : d_lon g1 = d_lon g).
    { unfold dup_fix_lat in E.
      destruct (negb _); [|inversion E; reflexivity].
      destruct (ref_slice_lat g) as [ref|]; simpl in E; [|discriminate].
      unfold isel_lat in E.
      destruct (isel _ (d_lat g)); simpl in E; [|discriminate].
      destruct (map_result _ (d_var g)); simpl in E; inversion E; reflexivity. }
    unfold dup_fix_lon. rewrite Hl1, Hlon, Nat.eqb_refl. simpl. rewrite app_nil_r. reflexivity.
Qed.

(** A grid with latitudes [-10; 0; 0; 10], the two rows at [0] NaN
    ([None]) at every time step. *)
Definition gw : dgrid Z (option Z) :=
  {| d_lat := [-10; 0; 0; 10]%Z; d_lon := [0; 1; 2]%Z;
     d_var := repeat [[Some 1; Some 1; Some 1]; [None; None; None];
                      [None; None; None]; [Some 2; Some 2; Some 2]]%Z 3;
     var_has_lat := true |}.

Lemma dup_fix_drops_nan_witness :
  exists g' w, dup_fix_lat Z.eq_dec (fun x => x) (fun v : option Z => match v with None => true | Some _ => false end) gw
               = Ok (g', w) /\ d_lat g' = [-10; 10]%Z.
Proof.
  destruct (proj1 (dup_fix_drops_nan Z.eq_dec (fun x => x)
                     (fun v : option Z => match v with None => true | Some _ => false end) gw)
              [Some 1; None; None; Some 2]%Z
              ltac:(vm_compute; discriminate) eq_refl
              ltac:(vm_compute; repeat constructor)) as [H _].
  eexists _, _. split; [exact H|reflexivity].
Defined.

Lemma nonzero_rows_from_bound (m : list (list bool)) (k i : nat) :
  In i (nonzero_rows_from k m) -> (k <= i < k + length m)%nat.
Proof.
  revert k. induction m as [|row m IH]; intros k H; simpl in H; [contradiction|].
  apply in_app_or in H as [H|H].
  - apply in_map_iff in H as (_ & <- & _). simpl. lia.
  - apply IH in H. simpl. lia.
Qed.

Definition isnan_opt (v : option Z) : bool :=
  match v with None => true | Some _ => false end.

(** A level of [gw]: at every time step and level, the rows at the two
    duplicated latitudes [0] are NaN and the others are not. *)
Definition gw4_level : list (list (option Z)) :=
  [[Some 1; Some 1; Some 1]; [None; None; None];
   [None; None; None]; [Some 2; Some 2; Some 2]]%Z.

(** [gw] with [n] pressure levels. *)
Definition gw4 (n : nat) : dgrid4 Z (option Z) :=
  {| d4_lat := [-10; 0; 0; 10]%Z; d4_lon := [0; 1; 2]%Z;
     d4_var := repeat (repeat gw4_level n) 3; var4_has_lat := true |}.

Definition lat_of4 (r : result (dgrid4 Z (option Z) * list string)) : result (list Z) :=
  match r with Ok (g, _) => Ok (d4_lat g) | Exc e => Exc e end.

(** C8 (code bug): on a variable with a pressure-level axis
    [time][plev][lat][lon], the reference slice [isel(lon=1,time=1)] is a
    [plev] x [lat] array, and [.nonzero()[0]] returns, for each non-NaN
    cell, its plev index; those indices are then used to select
    latitudes. On [gw] (latitudes [-10;0;0;10], the two duplicate rows
    NaN everywhere) with two levels the result has latitudes
    [-10;-10;0;0] instead of [-10;10], and with five levels the selection
    raises IndexError. *)
Theorem dup_fix_lat4_selects_plev_rows :
  (forall (C V : Type) (C_eq_dec : forall x y : C, {x = y} + {x <> y})
          (round10 : C -> C) (isnan : V -> bool) (g : dgrid4 C V) (ref : list (list V)),
     n_unique C_eq_dec round10 (d4_lat g) <> length (d4_lat g) ->
     ref_slice_lat4 g = Ok ref ->
     let idx := nonzero_rows (map (map (fun v => negb (isnan v))) ref) in
     (forall i, In i idx -> (i < length ref)%nat) /\
     dup_fix_lat4 C_eq_dec round10 isnan g =
       (g' <- isel_lat4 idx g ;; Ok (g', [lat_msg]))) /\
  lat_of4 (dup_fix_lat4 Z.eq_dec (fun x => x) isnan_opt (gw4 2)) = Ok [-10; -10; 0; 0]%Z /\
  lat_of4 (dup_fix_lat4 Z.eq_dec (fun x => x) isnan_opt (gw4 5)) = Exc IndexError.
Proof.
  split; [|split; vm_compute; reflexivity].
  intros C V C_eq_dec round10 isnan g ref Hdup Href idx. split.
  - intros i Hi. apply nonzero_rows_from_bound in Hi. rewrite length_map in Hi. lia.
  - unfold dup_fix_lat4. apply Nat.eqb_neq in Hdup. rewrite Hdup. simpl.
    rewrite Href. reflexivity.
Qed.

Lemma dup_fix_lat4_selects_plev_rows_witness :
  let idx := nonzero_rows (map (map (fun v => negb (isnan_opt v)))
                            [[Some 1; None; None; Some 2]; [Some 1; None; None; Some 2]]%Z) in
  (forall i, In i idx -> (i < 2)%nat) /\
  dup_fix_lat4 Z.eq_dec (fun x => x) isnan_opt (gw4 2) =
    (g' <- isel_lat4 idx (gw4 2) ;; Ok (g', [lat_msg])).
Proof.
  exact (proj1 dup_fix_lat4_selects_plev_rows Z (option Z) Z.eq_dec (fun x => x) isnan_opt
           (gw4 2) [[Some 1; None; None; Some 2]; [Some 1; None; None; Some 2]]%Z
           ltac:(vm_compute; discriminate) ltac:(vm_compute; reflexivity)).
Defined.

Close Scope string_scope.

(* ------------------------------------------------------------------ *)
(** ** C5: the catalog query builder *)

Open Scope string_scope.

Definition batch_one_common : list dict :=
  [ [("experiment_id", "historical"); ("variable_id", "pr")];
    [("experiment_id", "historical"); ("variable_id", "tas")] ].

Definition batch_no_common : list dict :=
  [ [("experiment_id", "historical"); ("variable_id", "pr")];
    [("experiment_id", "ssp585"); ("variable_id", "tas")] ].

(** With two common keys (the repository's own batch) the builder gives
    the specified query. *)
Example subset_query_repo :
  build_subset_query data_params_all_repo = Ok (match spec_subset_query data_params_all_repo with
                                                | Some q => q | None => "" end).
Proof. vm_compute. reflexivity. Qed.

(** C5 (code_bug): with exactly one key common to the batch,
    [itemgetter] returns that key as a string and the AND part iterates
    over its letters, so [data_params_all[0]['e']] raises [KeyError];
    with no common key [itemgetter()] raises [TypeError].  The specified
    query exists in both cases. *)
Theorem subset_query_common_key_failures :
  build_subset_query batch_one_common = Exc KeyError /\
  spec_subset_query batch_one_common =
    Some "experiment_id == 'historical' and (variable_id == 'pr' or variable_id == 'tas')" /\
  build_subset_query batch_no_common = Exc TypeError /\
  spec_subset_query batch_no_common =
    Some "(experiment_id == 'historical' or experiment_id == 'ssp585') and (variable_id == 'pr' or variable_id == 'tas')".
Proof. repeat split; vm_compute; reflexivity. Qed.

(* ------------------------------------------------------------------ *)
(** ** C7: pressure-level subsetting *)

Arguments plev_select {G} _ _ _ _ _ _.
Arguments plev_branch {G} _ _ _ _ _.
Arguments save_specs {G} _ _ _ {S} _ _ _ _.

(** C7 (code_bug): as soon as [data_params] has an ['other'] entry, the
    first subset spec raises [TypeError] at ['plev_subset' in
    data_params['other'].keys], aborting the whole run; and the [try]
    body itself, when no level is [allclose] to the target, raises
    [IndexError], which [except KeyError] does not catch. *)
Theorem plev_subset_aborts {G S} (plevs : G -> list Q) (isel_plev : nat -> G -> G)
        (rename_var : string -> string -> G -> G) (subset_of : S -> G) (output_fn : S -> string)
        (dp : data_params) (sp : S) (specs : list S) (ps : plev_subset) (ds_tmp : G) :
  other dp <> None ->
  save_specs plevs isel_plev rename_var subset_of output_fn dp (sp :: specs) = Exc TypeError /\
  (forallb (fun p => negb (allclose p (plev ps))) (plevs ds_tmp) = true ->
   try_except_KeyError (g <- plev_select plevs isel_plev rename_var dp ps ds_tmp ;; Ok (Some g))
                       (Ok None) = Exc IndexError).
Proof.
  intros Ho. split.
  - simpl. unfold plev_branch. destruct (other dp) as [o|]; [reflexivity|contradiction].
  - intros Hnone. unfold plev_select, py_index, nonzero.
    replace (nonzero_from 0 (map (fun p => allclose p (plev ps)) (plevs ds_tmp))) with (@nil nat).
    + reflexivity.
    + symmetry. apply nonzero_from_nil. intros Hin.
      apply in_map_iff in Hin as (p & Hp & Hin).
      rewrite forallb_forall in Hnone. specialize (Hnone p Hin).
      rewrite Hp in Hnone. discriminate.
Qed.

Definition dp_ta500 : data_params :=
  {| variable_id := "ta";
     other := Some (Some {| plev := 50000; outputfn := "ta500" |}) |}.

Lemma plev_subset_aborts_witness :
  save_specs (fun g : list Q => g) (fun _ g => g) (fun _ _ g => g)
             (fun _ : nat => [100000; 85000; 70000]%Q) (fun _ => "out.nc") dp_ta500 [0%nat; 1%nat]
  = Exc TypeError.
Proof.
  exact (proj1 (plev_subset_aborts (fun g : list Q => g) (fun _ g => g) (fun _ _ g => g)
                  (fun _ : nat => [100000; 85000; 70000]%Q) (fun _ => "out.nc") dp_ta500
                  0%nat [1%nat] {| plev := 50000; outputfn := "ta500" |} [100000; 85000; 70000]%Q
                  ltac:(discriminate))).
Defined.

(* ------------------------------------------------------------------ *)
(** ** C9: re-running the ERA5 download *)

Definition cfg_repo : era5_cfg :=
  {| raw_data_dir := "/data/"; resamp := true; output_freq_name := "day";
     fn_suffix := "_WIndOcean" |}.

Definition years_c9 : list Z := arange 1979 1989.

Definition fresh (fs : edisk) : era5_state := {| fn1 := None; files := fs; trace := [] |}.

Definition count_retrieves (tr : list effect) : nat :=
  length (filter (fun e => match e with Retrieve _ => true | _ => false end) tr).

(** C9 (code_bug): on a re-run in a fresh kernel where the first chunk's
    intermediate is already on disk, the skip branch prints [fn1], which
    is not yet bound, and raises [NameError] before any chunk is fetched;
    when only the second chunk is present the re-run fetches the other
    two and completes. *)
Theorem era5_rerun_first_chunk_present :
  era5_run cfg_repo years_c9 (make_chunks 5 years_c9) ["vwt"; "uwt"]
    (fresh [("/data/ERA5/vwt_day_ERA5_historical_reanalysis_19790101-19831231_WIndOcean.nc",
             arange 1979 1984)])
  = (fresh [("/data/ERA5/vwt_day_ERA5_historical_reanalysis_19790101-19831231_WIndOcean.nc",
             arange 1979 1984)], Some NameError) /\
  (let '(st, e) := era5_run cfg_repo years_c9 (make_chunks 5 years_c9) ["vwt"]
                     (fresh [("/data/ERA5/vwt_day_ERA5_historical_reanalysis_19840101-19881231_WIndOcean.nc",
                              arange 1984 1989)]) in
   e = None /\ count_retrieves (trace st) = 1%nat).
Proof. split; vm_compute; [reflexivity|split; reflexivity]. Qed.

Close Scope string_scope.

(* ------------------------------------------------------------------ *)
(** ** C6: concatenation of the ERA5 chunk intermediates *)

Lemma e_exists_write_other (fs : edisk) (p q : string) (ys : list Z) :
  q <> p -> e_exists (e_write fs p ys) q = e_exists fs q.
Proof.
  intros Hne. unfold e_exists, e_write. simpl.
  replace (String.eqb p q) with false
    by (symmetry; apply String.eqb_neq; congruence).
  simpl. induction fs as [|f fs IH]; [reflexivity|].
  simpl. destruct (String.eqb (fst f) p) eqn:Ef; simpl.
  - apply String.eqb_eq in Ef. rewrite Ef.
    replace (String.eqb p q) with false
      by (symmetry; apply String.eqb_neq; congruence).
    exact IH.
  - rewrite IH. reflexivity.
Qed.

Lemma e_exists_filter_false (f : string * list Z -> bool) (fs : edisk) (q : string) :
  e_exists fs q = false -> e_exists (filter f fs) q = false.
Proof.
  unfold e_exists. induction fs as [|x fs IH]; simpl; [reflexivity|].
  intros H. apply orb_false_iff in H as [H1 H2].
  destruct (f x); simpl; [rewrite H1|]; simpl; auto.
Qed.

Lemma era5_fn_ok (cfg : era5_cfg) (short_name freq : string) (ys : list Z) :
  ys <> [] -> exists p, era5_fn cfg short_name freq ys = Ok p.
Proof.
  intros Hne. destruct ys as [|y ys]; [contradiction|].
  destruct (rev (y :: ys)) as [|y' r] eqn:Er.
  - exfalso. apply (f_equal (@length Z)) in Er. rewrite length_rev in Er. discriminate.
  - unfold era5_fn, py_index. rewrite Er. simpl. eexists. reflexivity.
Qed.

Definition nonempty_chunks (chunks : list (list Z)) : bool :=
  forallb (fun c => match c with [] => false | _ => true end) chunks.

(** No chunk intermediate carries the name [q]. *)
Definition chunk_names_avoid (cfg : era5_cfg) (short_name : string) (chunks : list (list Z))
           (q : string) : bool :=
  forallb (fun c => match era5_fn cfg short_name (output_freq_name cfg) c with
                    | Ok p => negb (String.eqb p q)
                    | Exc _ => true
                    end) chunks.




Lemma cleanup_keeps (cfg : era5_cfg) (short_name : string) (chunks : list (list Z))
      (q : string) (ys : list Z) :
  forall st, In (q, ys) (files st) ->
  chunk_names_avoid cfg short_name chunks q = true ->
  In (q, ys) (files (fst (cleanup cfg short_name chunks st))).
Proof.
  induction chunks as [|c cs IH]; intros st Hin Hav; simpl; [exact Hin|].
  unfold chunk_names_avoid in Hav. simpl in Hav. apply andb_true_iff in Hav as [Hc Hcs].
  destruct (era5_fn cfg short_name (output_freq_name cfg) c) as [p|e]; [|exact Hin].
  unfold e_remove. destruct (e_exists (files st) p); [|exact Hin].
  apply IH; [|exact Hcs].
  simpl. apply filter_In. split; [exact Hin|].
  simpl. apply negb_true_iff in Hc. rewrite String.eqb_sym. rewrite Hc. reflexivity.
Qed.


Open Scope string_scope.

Definition cfg_mon : era5_cfg :=
  {| raw_data_dir := "/data/"; resamp := true; output_freq_name := "mon";
     fn_suffix := "_WIndOcean" |}.

Definition years_c6 : list Z := arange 1979 1990.

(** A day-frequency file of the second chunk left over from an earlier run. *)
Definition st_c6 : era5_state :=
  fresh [("/data/ERA5/vwt_day_ERA5_historical_reanalysis_19840101-19881231_WIndOcean.nc",
          arange 1984 1989)].

Definition fn_final_c6 : string :=
  "/data/ERA5/vwt_mon_ERA5_historical_reanalysis_19790101-19891231_WIndOcean.nc".

(** C6 (code bug): with [output_freq_name = 'mon'] and a stale ['day']
    file of the second chunk on disk, the existence check, which looks for
    the hard-coded ['day'] name, skips that chunk; its ['mon'] intermediate
    is then missing at concatenation, and the final file, covering
    1979-1983 and 1989 only, is written and kept before the cleanup raises
    [FileNotFoundError]. *)
Lemma era5_concat_gapped_final :
  let '(st, e) := era5_var cfg_mon years_c6 (make_chunks 5 years_c6) "vwt" st_c6 in
  e = Some FileNotFoundError /\
  In (fn_final_c6, [1989; 1979; 1980; 1981; 1982; 1983]) (files st) /\
  In (WriteNc fn_final_c6) (trace st).
Proof. vm_compute. split; [reflexivity|split; [left; reflexivity|]]. 
  repeat (first [left; reflexivity | right]).
Qed.


Close Scope string_scope.

(* ================================================================== *)
(** * Further properties of the notebooks *)

(** [pat in s] for a literal pattern. *)
Fixpoint no_match_at (pat s tail : string) : bool :=
  match s with
  | EmptyString => true
  | String c r => negb (String.prefix pat (String c r ++ tail)) && no_match_at pat r tail
  end.

Definition contains (pat s : string) : bool := negb (no_match_at pat s "").

Open Scope string_scope.

Lemma str_app_assoc (a b c : string) : (a ++ b) ++ c = a ++ (b ++ c).
Proof. induction a as [|x a IH]; simpl; [reflexivity|]. rewrite IH. reflexivity. Qed.

Lemma str_app_nil (a : string) : a ++ "" = a.
Proof. induction a as [|x a IH]; simpl; [reflexivity|]. rewrite IH. reflexivity. Qed.

Lemma str_app_length (a b : string) : String.length (a ++ b) = (String.length a + String.length b)%nat.
Proof. induction a as [|x a IH]; simpl; [reflexivity|]. rewrite IH. reflexivity. Qed.

Lemma str_app_inv_head (a b c : string) : a ++ b = a ++ c -> b = c.
Proof. induction a as [|x a IH]; simpl; [auto|]. intros H. injection H. exact IH. Qed.

Lemma prefix_app (a b : string) : String.prefix a (a ++ b) = true.
Proof.
  induction a as [|x a IH]; simpl; [destruct b; reflexivity|].
  destruct (ascii_dec x x); [exact IH|contradiction].
Qed.

Lemma prefix_app_cancel (a b c : string) : String.prefix (a ++ b) (a ++ c) = String.prefix b c.
Proof.
  induction a as [|x a IH]; simpl; [reflexivity|].
  destruct (ascii_dec x x); [exact IH|contradiction].
Qed.

Lemma substring_app_skip (a b : string) (k m : nat) :
  substring (String.length a + k) m (a ++ b) = substring k m b.
Proof. induction a as [|x a IH]; simpl; [reflexivity|]. exact IH. Qed.

Lemma substring_app_full (a b : string) : substring 0 (String.length a) (a ++ b) = a.
Proof. induction a as [|x a IH]; simpl; [destruct b; reflexivity|]. rewrite IH. reflexivity. Qed.

Lemma list_ascii_app (a b : string) :
  list_ascii_of_string (a ++ b) = (list_ascii_of_string a ++ list_ascii_of_string b)%list.
Proof. induction a as [|x a IH]; simpl; [reflexivity|]. rewrite IH. reflexivity. Qed.

(** [re.sub] leaves a stretch without occurrences unchanged. *)
Lemma re_sub_go_skip_prefix (pat rep s t : string) :
  no_match_at pat s t = true -> re_sub_go pat rep 0 (s ++ t) = s ++ re_sub_go pat rep 0 t.
Proof.
  induction s as [|c s IH]; simpl; [reflexivity|].
  intros H. apply andb_true_iff in H as [H1 H2]. apply negb_true_iff in H1.
  rewrite H1. rewrite IH by exact H2. reflexivity.
Qed.

Lemma re_sub_go_drop (pat rep u t : string) :
  re_sub_go pat rep (String.length u) (u ++ t) = re_sub_go pat rep 0 t.
Proof. induction u as [|c u IH]; simpl; [reflexivity|]. exact IH. Qed.

(** ... and replaces an occurrence at the front. *)
Lemma re_sub_go_hit (c : ascii) (p rep t : string) :
  re_sub_go (String c p) rep 0 (String c p ++ t) = rep ++ re_sub_go (String c p) rep 0 t.
Proof.
  simpl. destruct (ascii_dec c c); [|contradiction]. rewrite prefix_app.
  rewrite Nat.sub_0_r. rewrite re_sub_go_drop. reflexivity.
Qed.

Lemma no_match_at_app (pat a b t : string) :
  no_match_at pat (a ++ b) t = no_match_at pat a (b ++ t) && no_match_at pat b t.
Proof.
  induction a as [|x a IH]; simpl; [reflexivity|].
  rewrite IH, str_app_assoc. rewrite andb_assoc. reflexivity.
Qed.

Lemma no_match_hr_tail (s t : string) (c : ascii) :
  c <> "r"%char -> no_match_at "hr" s (String c t) = no_match_at "hr" s "".
Proof.
  intros Hc. induction s as [|x s IH]; [reflexivity|].
  cbn [no_match_at]. rewrite IH. f_equal. f_equal.
  cbn [String.append String.prefix].
  destruct (ascii_dec "h" x); [|reflexivity].
  destruct s as [|y s]; cbn [String.append String.prefix].
  - destruct (ascii_dec "r" c); [congruence|reflexivity].
  - destruct (ascii_dec "r" y); [|reflexivity]. destruct s; reflexivity.
Qed.

Definition no_char (c : ascii) (s : string) : bool :=
  forallb (fun x => negb (Ascii.eqb x c)) (list_ascii_of_string s).

Lemma no_match_hr_no_h (s t : string) :
  no_char "h" s = true -> no_match_at "hr" s t = true.
Proof.
  induction s as [|x s IH]; [reflexivity|].
  intros H. cbn [no_char list_ascii_of_string forallb] in H. unfold no_char in IH.
  apply andb_true_iff in H as [H1 H2]. cbn [no_match_at]. rewrite IH by exact H2.
  cbn [String.append String.prefix].
  destruct (ascii_dec "h" x) as [<-|]; [discriminate|reflexivity].
Qed.

Definition digit_or_minus (c : ascii) : bool :=
  existsb (Ascii.eqb c) ["0";"1";"2";"3";"4";"5";"6";"7";"8";"9";"-"]%char.

Lemma uint_chars (d : Decimal.uint) :
  forallb digit_or_minus (list_ascii_of_string (NilEmpty.string_of_uint d)) = true.
Proof. induction d; simpl; try rewrite IHd; reflexivity. Qed.

Lemma zstr_chars (z : Z) : forallb digit_or_minus (list_ascii_of_string (zstr z)) = true.
Proof.
  assert (U : forall d, forallb digit_or_minus (list_ascii_of_string (NilZero.string_of_uint d)) = true)
    by (intros d; destruct d; [reflexivity|apply uint_chars ..]).
  unfold zstr, NilZero.string_of_int. destruct (Z.to_int z) as [d|d]; [apply U|].
  cbn [list_ascii_of_string forallb]. rewrite U. reflexivity.
Qed.

Lemma no_char_of_digits (c : ascii) (s : string) :
  digit_or_minus c = false -> forallb digit_or_minus (list_ascii_of_string s) = true ->
  no_char c s = true.
Proof.
  intros Hc H. unfold no_char. rewrite forallb_forall in *. intros x Hx.
  specialize (H x Hx). apply negb_true_iff. apply Ascii.eqb_neq. intros ->. congruence.
Qed.

Lemma zstr_no_h (z : Z) : no_char "h" (zstr z) = true.
Proof. apply no_char_of_digits; [reflexivity|apply zstr_chars]. Qed.

Lemma zstr_no_slash (z : Z) : no_char "/" (zstr z) = true.
Proof. apply no_char_of_digits; [reflexivity|apply zstr_chars]. Qed.

Lemma re_sub_go_id (pat rep s : string) :
  no_match_at pat s "" = true -> re_sub_go pat rep 0 s = s.
Proof.
  intros H. rewrite <- (str_app_nil s) at 1. rewrite re_sub_go_skip_prefix by exact H.
  rewrite str_app_nil. reflexivity.
Qed.

Lemma re_sub_hr_slot (A B f : string) :
  no_match_at "hr" A ("hr" ++ B) = true -> no_match_at "hr" B "" = true ->
  re_sub "hr" f (A ++ "hr" ++ B) = A ++ f ++ B.
Proof.
  intros HA HB. unfold re_sub. rewrite re_sub_go_skip_prefix by exact HA.
  change ("hr" ++ B) with (String "h" "r" ++ B). rewrite re_sub_go_hit.
  rewrite re_sub_go_id by exact HB. reflexivity.
Qed.

(** The tail of an ERA5 file name after the frequency slot. *)
Definition era5_tail (cfg : era5_cfg) (y0 y1 : Z) : string :=
  "_ERA5_historical_reanalysis_" ++ zstr y0 ++ "0101-" ++ zstr y1 ++ "1231" ++ fn_suffix cfg ++ ".nc".

Definition era5_head (cfg : era5_cfg) (short_name : string) : string :=
  raw_data_dir cfg ++ "ERA5/" ++ short_name ++ "_".

Lemma era5_fn_parts (cfg : era5_cfg) (short_name freq : string) (ys : list Z) :
  era5_fn cfg short_name freq ys =
  (y0 <- py_index ys 0 ;; y1 <- py_index (rev ys) 0 ;;
   Ok (era5_head cfg short_name ++ freq ++ era5_tail cfg y0 y1)).
Proof.
  unfold era5_fn, era5_head, era5_tail.
  destruct (py_index ys 0); [|reflexivity]. cbn [bind].
  destruct (py_index (rev ys) 0); [|reflexivity]. cbn [bind].
  rewrite !str_app_assoc. reflexivity.
Qed.

Lemma era5_tail_no_hr (cfg : era5_cfg) (y0 y1 : Z) :
  contains "hr" (fn_suffix cfg) = false -> no_match_at "hr" (era5_tail cfg y0 y1) "" = true.
Proof.
  intros Hs. apply negb_false_iff in Hs. unfold era5_tail.
  rewrite !no_match_at_app.
  rewrite (no_match_hr_no_h (zstr y0)), (no_match_hr_no_h (zstr y1)) by apply zstr_no_h.
  cbn [String.append].
  rewrite no_match_hr_tail by discriminate. rewrite Hs.
  reflexivity.
Qed.

Lemma era5_head_no_hr (cfg : era5_cfg) (short_name : string) (B : string) :
  contains "hr" (raw_data_dir cfg) = false -> contains "hr" short_name = false ->
  no_match_at "hr" (era5_head cfg short_name) ("hr" ++ B) = true.
Proof.
  intros Hr Hn. apply negb_false_iff in Hr, Hn. unfold era5_head.
  rewrite !no_match_at_app. cbn [String.append].
  rewrite !no_match_hr_tail by discriminate. rewrite Hr, Hn.
  reflexivity.
Qed.

(** The name of a downloaded chunk after [re.sub('hr', freq, fn0)] is
    the chunk's name at frequency [freq], provided ['hr'] occurs in none
    of the configured name parts. *)
Lemma era5_fn_re_sub_hr (cfg : era5_cfg) (short_name f : string) (ys : list Z) :
  contains "hr" (raw_data_dir cfg) = false -> contains "hr" short_name = false ->
  contains "hr" (fn_suffix cfg) = false ->
  (fn0 <- era5_fn cfg short_name "hr" ys ;; Ok (re_sub "hr" f fn0)) = era5_fn cfg short_name f ys.
Proof.
  intros Hr Hn Hs. rewrite !era5_fn_parts.
  destruct (py_index ys 0) as [y0|]; [|reflexivity]. cbn [bind].
  destruct (py_index (rev ys) 0) as [y1|]; [|reflexivity]. cbn [bind].
  rewrite re_sub_hr_slot; [reflexivity| |].
  - apply era5_head_no_hr; assumption.
  - apply era5_tail_no_hr; assumption.
Qed.

Lemma existsb_slash_no_char (s : string) :
  no_char "/" s = true -> existsb (fun c => Ascii.eqb c "/") (list_ascii_of_string s) = false.
Proof.
  unfold no_char. induction (list_ascii_of_string s) as [|x l IH]; simpl; [reflexivity|].
  intros H. apply andb_true_iff in H as [H1 H2]. apply negb_true_iff in H1. rewrite H1, IH by exact H2.
  reflexivity.
Qed.

Lemma no_char_app (c : ascii) (a b : string) :
  no_char c (a ++ b) = no_char c a && no_char c b.
Proof. unfold no_char. rewrite list_ascii_app, forallb_app. reflexivity. Qed.

Lemma glob_match_app (pre mid suf : string) :
  no_char "/" mid = true -> glob_match pre suf (pre ++ mid ++ suf) = true.
Proof.
  intros Hm. unfold glob_match, is_suffix.
  rewrite !str_app_length.
  replace (String.length pre + (String.length mid + String.length suf) -
           String.length suf)%nat with (String.length pre + String.length mid)%nat by lia.
  replace (String.length pre + (String.length mid + String.length suf) -
           String.length pre - String.length suf)%nat with (String.length mid) by lia.
  rewrite prefix_app.
  assert (S1 : substring (String.length pre + String.length mid) (String.length suf)
                 (pre ++ mid ++ suf) = suf).
  { rewrite substring_app_skip.
    replace (String.length mid) with (String.length mid + 0)%nat by lia.
    rewrite substring_app_skip. rewrite <- (str_app_nil suf) at 2.
    rewrite substring_app_full. reflexivity. }
  assert (S2 : substring (String.length pre) (String.length mid) (pre ++ mid ++ suf) = mid).
  { replace (String.length pre) with (String.length pre + 0)%nat by lia.
    rewrite substring_app_skip. apply substring_app_full. }
  rewrite S1, S2.
  rewrite String.eqb_refl, existsb_slash_no_char by exact Hm.
  assert (L1 : Nat.leb (String.length pre + String.length suf)
                 (String.length pre + (String.length mid + String.length suf)) = true)
    by (apply Nat.leb_le; lia).
  assert (L2 : Nat.leb (String.length suf)
                 (String.length pre + (String.length mid + String.length suf)) = true)
    by (apply Nat.leb_le; lia).
  rewrite L1, L2. reflexivity.
Qed.

Lemma era5_name_glob (cfg : era5_cfg) (short_name : string) (ys : list Z) (p : string) :
  era5_fn cfg short_name (output_freq_name cfg) ys = Ok p ->
  glob_match (raw_data_dir cfg ++ "ERA5/" ++ short_name ++ "_" ++ output_freq_name cfg ++
              "_ERA5_historical_reanalysis_") (fn_suffix cfg ++ ".nc") p = true.
Proof.
  rewrite era5_fn_parts.
  destruct (py_index ys 0) as [y0|]; [|discriminate]. cbn [bind].
  destruct (py_index (rev ys) 0) as [y1|]; [|discriminate]. cbn [bind].
  intros H. injection H as <-.
  assert (E : era5_head cfg short_name ++ output_freq_name cfg ++ era5_tail cfg y0 y1 =
              (raw_data_dir cfg ++ "ERA5/" ++ short_name ++ "_" ++ output_freq_name cfg ++
               "_ERA5_historical_reanalysis_") ++
              (zstr y0 ++ "0101-" ++ zstr y1 ++ "1231") ++ (fn_suffix cfg ++ ".nc"))
    by (unfold era5_head, era5_tail; rewrite !str_app_assoc; reflexivity).
  rewrite E. apply glob_match_app. rewrite !no_char_app, !zstr_no_slash. reflexivity.
Qed.

(** The concatenation wildcard matches every file named by the
    notebook's pattern for the variable and output frequency, whatever
    its year range. *)
Theorem intermediates_match_era5_names (cfg : era5_cfg) (short_name : string) (ys : list Z)
        (p : string) (data : list Z) (fs : edisk) :
  era5_fn cfg short_name (output_freq_name cfg) ys = Ok p ->
  In (p, data) fs -> In (p, data) (intermediates cfg short_name fs).
Proof.
  intros Hp Hin. unfold intermediates. apply filter_In. split; [exact Hin|].
  exact (era5_name_glob cfg short_name ys p Hp).
Qed.

(* ------------------------------------------------------------------ *)
(** ** ERA5 runs *)

Definition name_at (cfg : era5_cfg) (short_name freq : string) (c : list Z) : string :=
  match era5_fn cfg short_name freq c with Ok p => p | Exc _ => "" end.

Definition retrieved (tr : list effect) : list (list Z) :=
  flat_map (fun e => match e with Retrieve ys => [ys] | _ => [] end) tr.

Fixpoint nodupb (l : list string) : bool :=
  match l with
  | [] => true
  | x :: l' => negb (existsb (String.eqb x) l') && nodupb l'
  end.

Lemma nodupb_NoDup (l : list string) : nodupb l = true -> NoDup l.
Proof.
  induction l as [|x l IH]; simpl; intros H; constructor.
  - apply andb_true_iff in H as [H _]. apply negb_true_iff in H. intros Hin.
    assert (existsb (String.eqb x) l = true) by (apply existsb_exists; exists x; split; [exact Hin|apply String.eqb_refl]).
    congruence.
  - apply andb_true_iff in H as [_ H]. exact (IH H).
Qed.

Lemma name_at_ok (cfg : era5_cfg) (short_name freq : string) (c : list Z) :
  c <> [] -> era5_fn cfg short_name freq c = Ok (name_at cfg short_name freq c).
Proof.
  intros Hc. destruct (era5_fn_ok cfg short_name freq c Hc) as [p Hp].
  unfold name_at. rewrite Hp. reflexivity.
Qed.

Lemma name_at_parts (cfg : era5_cfg) (short_name freq : string) (c : list Z) :
  c <> [] -> exists y0 y1, name_at cfg short_name freq c =
                           era5_head cfg short_name ++ freq ++ era5_tail cfg y0 y1.
Proof.
  intros Hc. pose proof (name_at_ok cfg short_name freq c Hc) as H.
  rewrite era5_fn_parts in H.
  destruct (py_index c 0) as [y0|]; [|discriminate]. cbn [bind] in H.
  destruct (py_index (rev c) 0) as [y1|]; [|discriminate]. cbn [bind] in H.
  injection H as H. exists y0, y1. symmetry. exact H.
Qed.

Lemma name_day_ne_hr (cfg : era5_cfg) (short_name : string) (c c' : list Z) :
  c <> [] -> c' <> [] -> name_at cfg short_name "day" c <> name_at cfg short_name "hr" c'.
Proof.
  intros Hc Hc'. destruct (name_at_parts cfg short_name "day" c Hc) as (a0 & a1 & ->).
  destruct (name_at_parts cfg short_name "hr" c' Hc') as (b0 & b1 & ->).
  intros H. apply str_app_inv_head in H. discriminate H.
Qed.

Lemma str_app_inv_tail (a b t : string) : a ++ t = b ++ t -> a = b.
Proof.
  revert b. induction a as [|x a IH]; intros b H; destruct b as [|y b]; simpl in H.
  - reflexivity.
  - exfalso. apply (f_equal String.length) in H. simpl in H. rewrite str_app_length in H. lia.
  - exfalso. apply (f_equal String.length) in H. simpl in H. rewrite str_app_length in H. lia.
  - injection H as -> H. f_equal. exact (IH b H).
Qed.

Lemma name_freq_ne_hr (cfg : era5_cfg) (short_name f : string) (c : list Z) :
  f <> "hr" -> c <> [] -> name_at cfg short_name f c <> name_at cfg short_name "hr" c.
Proof.
  intros Hf Hc. pose proof (name_at_ok cfg short_name f c Hc) as H1.
  pose proof (name_at_ok cfg short_name "hr" c Hc) as H2.
  rewrite era5_fn_parts in H1, H2.
  destruct (py_index c 0) as [y0|]; [|discriminate]. cbn [bind] in H1, H2.
  destruct (py_index (rev c) 0) as [y1|]; [|discriminate]. cbn [bind] in H1, H2.
  injection H1 as <-. injection H2 as <-. intros H.
  apply str_app_inv_head in H. apply (str_app_inv_tail f "hr" (era5_tail cfg y0 y1)) in H. exact (Hf H).
Qed.

Lemma e_exists_In (fs : edisk) (p : string) :
  e_exists fs p = true -> exists d, In (p, d) fs.
Proof.
  unfold e_exists. intros H. apply existsb_exists in H as ([q d] & Hin & Hq).
  apply String.eqb_eq in Hq. simpl in Hq. subst q. exists d. exact Hin.
Qed.

Lemma In_e_exists (fs : edisk) (p : string) (d : list Z) :
  In (p, d) fs -> e_exists fs p = true.
Proof.
  intros H. unfold e_exists. apply existsb_exists. exists (p, d). split; [exact H|].
  apply String.eqb_refl.
Qed.

(** A file named by the pattern is absent when no file matches the wildcard. *)
Lemma era5_name_absent (cfg : era5_cfg) (short_name : string) (c : list Z) (p : string)
      (fs : edisk) :
  intermediates cfg short_name fs = [] ->
  era5_fn cfg short_name (output_freq_name cfg) c = Ok p -> e_exists fs p = false.
Proof.
  intros Hi Hp. destruct (e_exists fs p) eqn:E; [|reflexivity].
  apply e_exists_In in E as (d & Hd).
  pose proof (intermediates_match_era5_names cfg short_name c p d fs Hp Hd) as H.
  rewrite Hi in H. destruct H.
Qed.

Lemma e_exists_filter_neq (fs : edisk) (h q : string) :
  e_exists (filter (fun f => negb (String.eqb (fst f) h)) fs) q =
  negb (String.eqb q h) && e_exists fs q.
Proof.
  unfold e_exists. induction fs as [|[p d] fs IH]; simpl.
  - destruct (String.eqb q h); reflexivity.
  - destruct (String.eqb p h) eqn:Eph; simpl.
    + rewrite IH. apply String.eqb_eq in Eph. subst p.
      rewrite (String.eqb_sym h q). destruct (String.eqb q h); reflexivity.
    + rewrite IH. destruct (String.eqb p q) eqn:Epq; simpl.
      * apply String.eqb_eq in Epq. subst p. rewrite Eph. reflexivity.
      * reflexivity.
Qed.

Lemma e_exists_write (fs : edisk) (p q : string) (d : list Z) :
  e_exists (e_write fs p d) q = String.eqb p q || (negb (String.eqb q p) && e_exists fs q).
Proof.
  unfold e_write. cbn [e_exists existsb fst]. fold (e_exists (filter (fun f => negb (String.eqb (fst f) p)) fs) q).
  rewrite e_exists_filter_neq. reflexivity.
Qed.

(** The disk after downloading chunk [c] to [h] and resampling it to [n]. *)
Definition dl_files (fs : edisk) (c : list Z) (n h : string) : edisk :=
  filter (fun f => negb (String.eqb (fst f) h)) (e_write (e_write fs h c) n c).

Lemma dl_files_exists (fs : edisk) (c : list Z) (n h q : string) :
  n <> h ->
  e_exists (dl_files fs c n h) q =
  if String.eqb q n then true else if String.eqb q h then false else e_exists fs q.
Proof.
  intros Hnh. unfold dl_files. rewrite e_exists_filter_neq, !e_exists_write.
  destruct (String.eqb q n) eqn:Eqn.
  - apply String.eqb_eq in Eqn. subst q. rewrite String.eqb_refl.
    apply String.eqb_neq in Hnh. rewrite Hnh. reflexivity.
  - rewrite (String.eqb_sym n q), Eqn. simpl.
    destruct (String.eqb q h) eqn:Eqh; simpl; [reflexivity|].
    rewrite (String.eqb_sym h q), Eqh. reflexivity.
Qed.

Lemma filter_filter_comm {X} (f g : X -> bool) (l : list X) :
  filter f (filter g l) = filter g (filter f l).
Proof.
  induction l as [|x l IH]; simpl; [reflexivity|].
  destruct (g x) eqn:Eg, (f x) eqn:Ef; simpl; rewrite ?Eg, ?Ef, IH; reflexivity.
Qed.

Lemma filter_all {X} (f : X -> bool) (l : list X) :
  forallb f l = true -> filter f l = l.
Proof.
  induction l as [|x l IH]; simpl; [reflexivity|].
  intros H. apply andb_true_iff in H as [H1 H2]. rewrite H1, IH by exact H2. reflexivity.
Qed.

Lemma intermediates_filter (cfg : era5_cfg) (short_name : string) (f : string * list Z -> bool)
      (fs : edisk) :
  intermediates cfg short_name (filter f fs) = filter f (intermediates cfg short_name fs).
Proof. unfold intermediates. apply filter_filter_comm. Qed.

Lemma intermediates_cons (cfg : era5_cfg) (short_name : string) (x : string * list Z)
      (fs : edisk) :
  intermediates cfg short_name (x :: fs) =
  if glob_match (raw_data_dir cfg ++ "ERA5/" ++ short_name ++ "_" ++ output_freq_name cfg ++
                 "_ERA5_historical_reanalysis_") (fn_suffix cfg ++ ".nc") (fst x)
  then x :: intermediates cfg short_name fs else intermediates cfg short_name fs.
Proof. reflexivity. Qed.

Lemma intermediates_dl_files (cfg : era5_cfg) (short_name : string) (fs : edisk)
      (c : list Z) (n h : string) :
  n <> h ->
  era5_fn cfg short_name (output_freq_name cfg) c = Ok n ->
  intermediates cfg short_name (dl_files fs c n h) =
  (n, c) :: filter (fun f => negb (String.eqb (fst f) h))
              (filter (fun f => negb (String.eqb (fst f) n))
                 (filter (fun f => negb (String.eqb (fst f) h))
                    (intermediates cfg short_name fs))).
Proof.
  intros Hnh Hn. apply String.eqb_neq in Hnh. unfold dl_files, e_write.
  rewrite intermediates_filter, intermediates_cons. cbn [fst].
  rewrite (era5_name_glob cfg short_name c n Hn).
  cbn [filter fst]. rewrite Hnh. cbn [negb]. f_equal.
  rewrite (String.eqb_sym h n), Hnh. cbn [negb].
  rewrite intermediates_cons. cbn [fst].
  destruct (glob_match _ _ h).
  - cbn [filter fst]. rewrite String.eqb_refl. cbn [negb].
    rewrite !intermediates_filter. reflexivity.
  - rewrite !intermediates_filter. reflexivity.
Qed.

Lemma re_sub_name_at (cfg : era5_cfg) (short_name g : string) (c : list Z) :
  contains "hr" (raw_data_dir cfg) = false -> contains "hr" short_name = false ->
  contains "hr" (fn_suffix cfg) = false -> c <> [] ->
  re_sub "hr" g (name_at cfg short_name "hr" c) = name_at cfg short_name g c.
Proof.
  intros Hr Hn Hs Hc. pose proof (era5_fn_re_sub_hr cfg short_name g c Hr Hn Hs) as H.
  rewrite (name_at_ok cfg short_name "hr" c Hc), (name_at_ok cfg short_name g c Hc) in H.
  cbn [bind] in H. injection H as H. exact H.
Qed.

Lemma chunk_step_download (cfg : era5_cfg) (short_name : string) (st : era5_state) (c : list Z) :
  resamp cfg = true ->
  contains "hr" (raw_data_dir cfg) = false -> contains "hr" short_name = false ->
  contains "hr" (fn_suffix cfg) = false -> c <> [] ->
  output_freq_name cfg <> "hr" ->
  e_exists (files st) (name_at cfg short_name "day" c) = false ->
  chunk_step cfg short_name st c =
  ({| fn1 := Some (name_at cfg short_name (output_freq_name cfg) c);
      files := dl_files (files st) c (name_at cfg short_name (output_freq_name cfg) c)
                        (name_at cfg short_name "hr" c);
      trace := (trace st ++ [Retrieve c; WriteNc (name_at cfg short_name (output_freq_name cfg) c);
                             Remove (name_at cfg short_name "hr" c);
                             Warn (name_at cfg short_name (output_freq_name cfg) c ++ " processed!")])%list |},
   None).
Proof.
  intros Hres Hr Hn Hs Hc Hf Hex.
  pose proof (name_freq_ne_hr cfg short_name (output_freq_name cfg) c Hf Hc) as Hne.
  apply String.eqb_neq in Hne.
  unfold chunk_step. rewrite (name_at_ok cfg short_name "hr" c Hc).
  rewrite (re_sub_name_at cfg short_name "day" c Hr Hn Hs Hc).
  rewrite (re_sub_name_at cfg short_name (output_freq_name cfg) c Hr Hn Hs Hc).
  rewrite Hex, Hres. cbn [negb]. unfold e_remove. rewrite !e_exists_write.
  rewrite Hne, (String.eqb_sym (name_at cfg short_name "hr" c)), Hne, String.eqb_refl.
  reflexivity.
Qed.

Definition day_entry (cfg : era5_cfg) (short_name : string) (c : list Z) : string * list Z :=
  (name_at cfg short_name "day" c, c).

Lemma retrieved_app (a b : list effect) : retrieved (a ++ b) = (retrieved a ++ retrieved b)%list.
Proof. unfold retrieved. apply flat_map_app. Qed.

Lemma NoDup_map_app_neq {X Y} (f : X -> Y) (l1 l2 : list X) (a b : X) :
  NoDup (map f (l1 ++ l2)) -> In a l1 -> In b l2 -> f a <> f b.
Proof.
  rewrite map_app. intros H Ha Hb Heq.
  induction l1 as [|x l1 IH]; [destruct Ha|].
  simpl in H. inversion H as [|? ? Hx Hnd]; subst.
  destruct Ha as [<-|Ha].
  - apply Hx. apply in_or_app. right. rewrite Heq. apply in_map. exact Hb.
  - exact (IH Hnd Ha).
Qed.

Lemma nonempty_chunks_In (cs : list (list Z)) (c : list Z) :
  nonempty_chunks cs = true -> In c cs -> c <> [].
Proof.
  unfold nonempty_chunks. intros H Hin. rewrite forallb_forall in H.
  specialize (H c Hin). destruct c; [discriminate|congruence].
Qed.

Lemma nonempty_chunks_app (a b : list (list Z)) :
  nonempty_chunks (a ++ b) = nonempty_chunks a && nonempty_chunks b.
Proof. unfold nonempty_chunks. apply forallb_app. Qed.

Section FreshLoop.

Variable cfg : era5_cfg.
Variable short_name : string.
Hypothesis Hres : resamp cfg = true.
Hypothesis Hday : output_freq_name cfg = "day".
Hypothesis Hr : contains "hr" (raw_data_dir cfg) = false.
Hypothesis Hn : contains "hr" short_name = false.
Hypothesis Hs : contains "hr" (fn_suffix cfg) = false.

Lemma chunk_loop_fresh :
  forall todo done st,
  nonempty_chunks (done ++ todo) = true ->
  NoDup (map (name_at cfg short_name "day") (done ++ todo)) ->
  intermediates cfg short_name (files st) = map (day_entry cfg short_name) (rev done) ->
  let '(st', e) := chunk_loop cfg short_name todo st in
  e = None /\
  intermediates cfg short_name (files st') = map (day_entry cfg short_name) (rev (done ++ todo)) /\
  retrieved (trace st') = (retrieved (trace st) ++ todo)%list.
Proof.
  induction todo as [|c todo IH]; intros done st Hne Hnd Hi.
  - simpl. rewrite !app_nil_r. auto.
  - assert (Hc : c <> []) by (apply (nonempty_chunks_In _ _ Hne); apply in_or_app; right; left; reflexivity).
    assert (Hf : output_freq_name cfg <> "hr") by (rewrite Hday; discriminate).
    assert (Hex : e_exists (files st) (name_at cfg short_name "day" c) = false).
    { destruct (e_exists (files st) (name_at cfg short_name "day" c)) eqn:E; [|reflexivity].
      apply e_exists_In in E as (d & Hd). exfalso.
      assert (Hok : era5_fn cfg short_name (output_freq_name cfg) c = Ok (name_at cfg short_name "day" c))
        by (rewrite Hday; apply name_at_ok; exact Hc).
      pose proof (intermediates_match_era5_names cfg short_name c _ d (files st) Hok Hd) as Hin.
      rewrite Hi in Hin. apply in_map_iff in Hin as (c' & Heq & Hc').
      unfold day_entry in Heq. injection Heq as Heq _. apply in_rev in Hc'.
      apply (NoDup_map_app_neq _ _ _ c' c Hnd Hc'); [left; reflexivity|exact Heq]. }
    simpl chunk_loop. rewrite (chunk_step_download cfg short_name st c Hres Hr Hn Hs Hc Hf Hex).
    rewrite Hday.
    specialize (IH (done ++ [c])%list).
    rewrite <- app_assoc in IH. simpl app in IH.
    match goal with |- context [chunk_loop cfg short_name todo ?s] => specialize (IH s Hne Hnd) end.
    destruct (chunk_loop cfg short_name todo _) as [st' e].
    cbn [files trace] in IH.
    destruct IH as (He & Hi' & Hrt).
    + rewrite intermediates_dl_files.
      * rewrite Hi, rev_app_distr. simpl. f_equal.
        assert (H1 : forallb (fun f => negb (String.eqb (fst f) (name_at cfg short_name "hr" c)))
                       (map (day_entry cfg short_name) (rev done)) = true).
        { apply forallb_forall. intros [q d] Hq. apply in_map_iff in Hq as (c' & Heq & Hc').
          unfold day_entry in Heq. injection Heq as <- <-. apply in_rev in Hc'. cbn [fst].
          apply negb_true_iff, String.eqb_neq. apply name_day_ne_hr; [|exact Hc].
          apply (nonempty_chunks_In _ _ Hne). apply in_or_app. left. exact Hc'. }
        assert (H2 : forallb (fun f => negb (String.eqb (fst f) (name_at cfg short_name "day" c)))
                       (map (day_entry cfg short_name) (rev done)) = true).
        { apply forallb_forall. intros [q d] Hq. apply in_map_iff in Hq as (c' & Heq & Hc').
          unfold day_entry in Heq. injection Heq as <- <-. apply in_rev in Hc'. cbn [fst].
          apply negb_true_iff, String.eqb_neq.
          apply (NoDup_map_app_neq _ _ _ c' c Hnd Hc'). left. reflexivity. }
        rewrite (filter_all _ _ H1), (filter_all _ _ H2), (filter_all _ _ H1). reflexivity.
      * apply name_day_ne_hr; exact Hc.
      * rewrite Hday. apply name_at_ok. exact Hc.
    + split; [exact He|]. split; [exact Hi'|].
      rewrite Hrt, retrieved_app, <- app_assoc. reflexivity.
Qed.

End FreshLoop.

Lemma cleanup_only_removes (cfg : era5_cfg) (short_name : string) (q : string) :
  forall cs st, e_exists (files st) q = false ->
  e_exists (files (fst (cleanup cfg short_name cs st))) q = false.
Proof.
  induction cs as [|c cs IH]; intros st H; simpl; [exact H|].
  destruct (era5_fn cfg short_name (output_freq_name cfg) c) as [p|e]; [|exact H].
  unfold e_remove. destruct (e_exists (files st) p); [|exact H].
  apply IH. simpl. apply e_exists_filter_false. exact H.
Qed.

Lemma cleanup_removes_all (cfg : era5_cfg) (short_name : string) :
  forall cs st,
  nonempty_chunks cs = true ->
  NoDup (map (name_at cfg short_name (output_freq_name cfg)) cs) ->
  (forall c, In c cs -> e_exists (files st) (name_at cfg short_name (output_freq_name cfg) c) = true) ->
  let '(st', e) := cleanup cfg short_name cs st in
  e = None /\
  (forall c, In c cs -> e_exists (files st') (name_at cfg short_name (output_freq_name cfg) c) = false) /\
  retrieved (trace st') = retrieved (trace st).
Proof.
  induction cs as [|c cs IH]; intros st Hne Hnd Hex.
  - simpl. split; [reflexivity|]. split; [intros c []|reflexivity].
  - unfold nonempty_chunks in Hne. simpl in Hne. apply andb_true_iff in Hne as [Hc Hcs].
    assert (Hc' : c <> []) by (destruct c; [discriminate|congruence]).
    simpl cleanup. rewrite (name_at_ok cfg short_name _ c Hc').
    unfold e_remove. rewrite (Hex c (or_introl eq_refl)).
    simpl in Hnd. inversion Hnd as [|? ? Hnin Hnd']; subst.
    set (p := name_at cfg short_name (output_freq_name cfg) c).
    set (st1 := with_files st (filter (fun f => negb (String.eqb (fst f) p)) (files st)) [Remove p]).
    pose proof (cleanup_only_removes cfg short_name p cs st1) as Hkeep.
    specialize (IH st1 Hcs Hnd').
    destruct (cleanup cfg short_name cs st1) as [st' e] eqn:Ecl.
    destruct IH as (He & Habs & Hrt).
    + intros c' Hin'. unfold st1. simpl. rewrite e_exists_filter_neq.
      rewrite (Hex c' (or_intror Hin')). rewrite andb_true_r.
      apply negb_true_iff, String.eqb_neq. intros Heq. apply Hnin. unfold p in Heq. rewrite <- Heq.
      apply in_map. exact Hin'.
    + split; [exact He|]. split.
      * intros c' [<-|Hin']; [|exact (Habs c' Hin')].
        apply Hkeep. unfold st1. simpl. rewrite e_exists_filter_neq, String.eqb_refl. reflexivity.
      * rewrite Hrt. unfold st1, with_files. simpl. rewrite retrieved_app, app_nil_r. reflexivity.
Qed.

Lemma concat_rev_perm {X} (l : list (list X)) : Permutation (concat (rev l)) (concat l).
Proof.
  induction l as [|a l IH]; simpl; [constructor|].
  rewrite concat_app. simpl. rewrite app_nil_r.
  eapply Permutation_trans; [apply Permutation_app_comm|]. apply Permutation_app_head. exact IH.
Qed.

Lemma flat_map_snd_entries (cfg : era5_cfg) (short_name : string) (l : list (list Z)) :
  flat_map snd (map (day_entry cfg short_name) l) = concat l.
Proof. induction l as [|a l IH]; simpl; [reflexivity|]. rewrite IH. reflexivity. Qed.

(** On a fresh download (no matching file on disk, every chunk nonempty
    and every file name distinct), [era5_var] with resampling to daily
    retrieves each chunk once in order, ends without an exception, leaves
    the final file holding exactly the years of all chunks, and deletes
    every chunk intermediate. *)
Theorem era5_var_fresh_download (cfg : era5_cfg) (short_name : string) (all_years : list Z)
        (chunks : list (list Z)) (st : era5_state) (fn_final : string) :
  resamp cfg = true -> output_freq_name cfg = "day" ->
  contains "hr" (raw_data_dir cfg) = false -> contains "hr" short_name = false ->
  contains "hr" (fn_suffix cfg) = false ->
  chunks <> [] -> nonempty_chunks chunks = true ->
  era5_fn cfg short_name "day" all_years = Ok fn_final ->
  NoDup (fn_final :: map (name_at cfg short_name "day") chunks) ->
  intermediates cfg short_name (files st) = [] ->
  let '(st', e) := era5_var cfg all_years chunks short_name st in
  e = None /\
  retrieved (trace st') = (retrieved (trace st) ++ chunks)%list /\
  (exists data, In (fn_final, data) (files st') /\ Permutation data (concat chunks)) /\
  (forall c, In c chunks -> e_exists (files st') (name_at cfg short_name "day" c) = false).
Proof.
  intros Hres Hday Hr Hn Hs Hne Hnec Hfin Hnd Hi.
  inversion Hnd as [|? ? Hfn Hnd']; subst.
  assert (Hfin' : era5_fn cfg short_name (output_freq_name cfg) all_years = Ok fn_final)
    by (rewrite Hday; exact Hfin).
  unfold era5_var. rewrite Hres, Hfin'.
  rewrite (era5_name_absent cfg short_name all_years fn_final (files st) Hi Hfin'). cbn [negb].
  pose proof (chunk_loop_fresh cfg short_name Hres Hday Hr Hn Hs chunks [] st Hnec Hnd') as Hl.
  simpl in Hl. rewrite Hi in Hl. specialize (Hl eq_refl).
  destruct (chunk_loop cfg short_name chunks st) as [st1 e1].
  destruct Hl as (-> & Hi1 & Hrt1).
  unfold concat_phase. rewrite Hi1.
  destruct (map (day_entry cfg short_name) (rev chunks)) as [|x xs] eqn:Emap.
  { destruct chunks as [|c cs]; [contradiction|]. simpl in Emap.
    rewrite map_app in Emap. destruct (map _ (rev cs)); discriminate. }
  rewrite <- Emap.
  replace (e_exists (map (day_entry cfg short_name) (rev chunks)) fn_final) with false.
  2:{ symmetry. apply Bool.not_true_iff_false. intros Hex. apply Hfn.
      unfold e_exists in Hex. apply existsb_exists in Hex as ([q ys] & Hin & Heq).
      apply String.eqb_eq in Heq. cbn [fst] in Heq. subst q.
      apply in_map_iff in Hin as (c & Hc & Hin). unfold day_entry in Hc. injection Hc as Hq _.
      rewrite <- Hq. apply in_map. apply in_rev. exact Hin. }
  rewrite flat_map_snd_entries.
  set (st2 := with_files st1 (e_write (files st1) fn_final (concat (rev chunks))) [WriteNc fn_final]).
  assert (Hin2 : forall c, In c chunks ->
                 e_exists (files st2) (name_at cfg short_name (output_freq_name cfg) c) = true).
  { intros c Hc. unfold st2, with_files. cbn [files]. rewrite Hday. rewrite e_exists_write_other.
    - apply (In_e_exists _ _ c).
      assert (Hin : In (day_entry cfg short_name c) (intermediates cfg short_name (files st1)))
        by (rewrite Hi1, <- Emap; apply in_map; apply in_rev; rewrite rev_involutive; exact Hc).
      unfold intermediates in Hin. apply filter_In in Hin as [Hin _]. exact Hin.
    - intros Heq. apply Hfn. rewrite <- Heq. apply in_map. exact Hc. }
  pose proof (cleanup_keeps cfg short_name chunks fn_final (concat (rev chunks)) st2) as Hkeep.
  pose proof (cleanup_removes_all cfg short_name chunks st2 Hnec) as Hcl.
  rewrite Hday in Hcl. specialize (Hcl Hnd').
  rewrite Hday in Hin2. specialize (Hcl Hin2).
  destruct (cleanup cfg short_name chunks st2) as [st' e] eqn:Ecl.
  destruct Hcl as (-> & Habs & Hrt).
  split; [reflexivity|]. split.
  - rewrite Hrt. unfold st2, with_files. simpl. rewrite retrieved_app, app_nil_r. exact Hrt1.
  - split; [|exact Habs].
    exists (concat (rev chunks)). split; [|apply concat_rev_perm].
    apply Hkeep.
    + unfold st2. simpl. left. reflexivity.
    + unfold chunk_names_avoid. apply forallb_forall. intros c Hc. rewrite Hday.
      assert (Hc' : c <> []) by exact (nonempty_chunks_In _ _ Hnec Hc).
      rewrite (name_at_ok cfg short_name "day" c Hc').
      apply negb_true_iff, String.eqb_neq. intros Heq. apply Hfn. rewrite <- Heq.
      apply in_map. exact Hc.
Qed.


Lemma prefix_freq_hr (f X Y : string) :
  f <> "hr" -> no_char "_" f = true ->
  String.prefix (f ++ String "_" X) (String "h" (String "r" (String "_" Y))) = false.
Proof.
  intros Hf Hu. destruct f as [|a [|b r]]; cbn [String.append String.prefix].
  - destruct (ascii_dec "_" "h") as [E|_]; [discriminate E|reflexivity].
  - destruct (ascii_dec a "h"); [|reflexivity].
    destruct (ascii_dec "_" "r") as [E|_]; [discriminate E|reflexivity].
  - destruct (ascii_dec a "h") as [->|]; [|reflexivity].
    destruct (ascii_dec b "r") as [->|]; [|reflexivity].
    destruct r as [|c r]; [contradiction|]. cbn [String.append String.prefix].
    destruct (ascii_dec c "_") as [->|]; [|reflexivity].
    discriminate Hu.
Qed.

(** A file named for the hourly data never matches the wildcard of an
    output frequency other than ["hr"] whose name has no underscore. *)
Lemma hr_name_not_glob (cfg : era5_cfg) (short_name : string) (c : list Z) (fn0 : string) :
  output_freq_name cfg <> "hr" -> no_char "_" (output_freq_name cfg) = true ->
  era5_fn cfg short_name "hr" c = Ok fn0 ->
  glob_match (raw_data_dir cfg ++ "ERA5/" ++ short_name ++ "_" ++ output_freq_name cfg ++
              "_ERA5_historical_reanalysis_") (fn_suffix cfg ++ ".nc") fn0 = false.
Proof.
  intros Hf Hu H. rewrite era5_fn_parts in H.
  destruct (py_index c 0) as [y0|]; [|discriminate]. cbn [bind] in H.
  destruct (py_index (rev c) 0) as [y1|]; [|discriminate]. cbn [bind] in H.
  injection H as <-.
  assert (E : raw_data_dir cfg ++ "ERA5/" ++ short_name ++ "_" ++ output_freq_name cfg ++
              "_ERA5_historical_reanalysis_" =
              era5_head cfg short_name ++ (output_freq_name cfg ++ "_ERA5_historical_reanalysis_"))
    by (unfold era5_head; rewrite !str_app_assoc; reflexivity).
  unfold glob_match. cbv zeta. rewrite E, prefix_app_cancel.
  unfold era5_tail.
  replace (String.prefix _ _) with false by (symmetry; apply prefix_freq_hr; assumption).
  rewrite andb_false_r. reflexivity.
Qed.

Lemma e_remove_write (fs : edisk) (p : string) (d : list Z) :
  e_remove p (e_write fs p d) = Ok (filter (fun f => negb (String.eqb (fst f) p)) (e_write fs p d)).
Proof. unfold e_remove. rewrite e_exists_write, String.eqb_refl. reflexivity. Qed.

Lemma chunk_loop_no_resamp (cfg : era5_cfg) (short_name : string) :
  resamp cfg = false -> output_freq_name cfg <> "hr" ->
  no_char "_" (output_freq_name cfg) = true ->
  forall cs st, intermediates cfg short_name (files st) = [] ->
  snd (chunk_loop cfg short_name cs st) = None ->
  intermediates cfg short_name (files (fst (chunk_loop cfg short_name cs st))) = [].
Proof.
  intros Hres Hf Hu. induction cs as [|c cs IH]; intros st Hi Hok; [exact Hi|].
  cbn [chunk_loop] in *. unfold chunk_step in *.
  destruct (era5_fn cfg short_name "hr" c) as [fn0|e] eqn:E0; [|discriminate Hok].
  pose proof (hr_name_not_glob cfg short_name c fn0 Hf Hu E0) as Hg.
  destruct (negb (e_exists (files st) (re_sub "hr" "day" fn0))).
  - rewrite Hres, e_remove_write in *. cbn beta iota zeta in Hok |- *.
    apply IH; [|exact Hok]. cbn [files]. unfold e_write.
    rewrite intermediates_cons. cbn [fst]. rewrite Hg.
    rewrite !intermediates_filter, intermediates_cons. cbn [fst]. rewrite Hg.
    rewrite intermediates_filter, Hi. reflexivity.
  - destruct (fn1 st) as [f|]; [|discriminate Hok].
    apply IH; [exact Hi|exact Hok].
Qed.

(** Without resampling the chunks are stored under the hourly name, which
    the concatenation wildcard (built from the output frequency) does not
    match: on a disk with no matching file and no final output, the run for
    a variable never ends without an exception. *)
Theorem era5_var_no_resamp_fails (cfg : era5_cfg) (short_name : string) (all_years : list Z)
        (chunks : list (list Z)) (st : era5_state) :
  resamp cfg = false -> output_freq_name cfg <> "hr" ->
  no_char "_" (output_freq_name cfg) = true ->
  intermediates cfg short_name (files st) = [] ->
  e_exists (files st) (name_at cfg short_name "hr" all_years) = false ->
  snd (era5_var cfg all_years chunks short_name st) <> None.
Proof.
  intros Hres Hf Hu Hi Hex. unfold era5_var. rewrite Hres.
  destruct all_years as [|y ys]; [discriminate|].
  rewrite (name_at_ok cfg short_name "hr" (y :: ys) ltac:(discriminate)), Hex. cbn [negb].
  pose proof (chunk_loop_no_resamp cfg short_name Hres Hf Hu chunks st Hi) as Hl.
  destruct (chunk_loop cfg short_name chunks st) as [st1 [e|]]; [discriminate|].
  specialize (Hl eq_refl). cbn [fst] in Hl.
  unfold concat_phase. rewrite Hl. discriminate.
Qed.

(** When the final output of every variable is already on disk, the run
    ends without an exception and without touching the disk or fetching
    anything. *)
Theorem era5_run_all_present (cfg : era5_cfg) (all_years : list Z) (chunks : list (list Z)) :
  forall download_vars st,
  Forall (fun v => exists p,
            era5_fn cfg v (if resamp cfg then output_freq_name cfg else "hr") all_years = Ok p /\
            e_exists (files st) p = true) download_vars ->
  let '(st', e) := era5_run cfg all_years chunks download_vars st in
  e = None /\ files st' = files st /\ fn1 st' = fn1 st /\
  retrieved (trace st') = retrieved (trace st).
Proof.
  induction download_vars as [|v vs IH]; intros st H; [simpl; auto|].
  inversion H as [|? ? (p & Hp & Hex) Hvs]; subst.
  cbn [era5_run]. unfold era5_var. rewrite Hp, Hex. cbn [negb].
  specialize (IH (with_files st (files st) [Warn (p ++ " already exists, skipped.")]) Hvs).
  destruct (era5_run cfg all_years chunks vs _) as [st' e].
  destruct IH as (He & Hf & H1 & Hrt). cbn [files fn1 with_files trace] in *.
  split; [exact He|]. split; [exact Hf|]. split; [exact H1|].
  rewrite Hrt, retrieved_app, app_nil_r. reflexivity.
Qed.

(* ------------------------------------------------------------------ *)
(** ** Chunking the years *)

Lemma make_chunks_go_nil (fuel cs : nat) : make_chunks_go fuel cs [] = [].
Proof. destruct fuel; reflexivity. Qed.

Lemma make_chunks_go_spec (cs : nat) :
  (0 < cs)%nat ->
  forall fuel ys, (length ys <= fuel)%nat ->
  concat (make_chunks_go fuel cs ys) = ys /\
  Forall (fun c => c <> [] /\ (length c <= cs)%nat) (make_chunks_go fuel cs ys) /\
  Forall (fun c => length c = cs) (removelast (make_chunks_go fuel cs ys)).
Proof.
  intros Hcs. induction fuel as [|f IH]; intros ys Hl.
  - destruct ys; [|simpl in Hl; lia]. simpl. auto.
  - destruct ys as [|y t]; [simpl; auto|].
    cbn [make_chunks_go].
    assert (Hlen : (length (skipn cs (y :: t)) <= f)%nat)
      by (rewrite length_skipn; cbn [length] in Hl |- *; lia).
    destruct (IH _ Hlen) as (Hcat & Hall & Hfull).
    split; [|split].
    + simpl concat. rewrite Hcat. apply firstn_skipn.
    + constructor; [|exact Hall]. split.
      * destruct cs; [lia|]. discriminate.
      * rewrite length_firstn. lia.
    + destruct (make_chunks_go f cs (skipn cs (y :: t))) as [|r rs] eqn:Er; [constructor|].
      cbn [removelast]. constructor; [|exact Hfull].
      rewrite length_firstn. apply Nat.min_l.
      destruct (skipn cs (y :: t)) as [|z zs] eqn:Es.
      * rewrite make_chunks_go_nil in Er. discriminate.
      * assert (length (skipn cs (y :: t)) > 0)%nat by (rewrite Es; simpl; lia).
        rewrite length_skipn in H. lia.
Qed.

(** With a positive chunk size, the chunks split the years in order
    (their concatenation gives back the years), none is empty, none is
    longer than the chunk size, and all but the last have exactly that size. *)
Theorem make_chunks_partition (chunk_size : nat) (ys : list Z) :
  (0 < chunk_size)%nat ->
  concat (make_chunks chunk_size ys) = ys /\
  Forall (fun c => c <> [] /\ (length c <= chunk_size)%nat) (make_chunks chunk_size ys) /\
  Forall (fun c => length c = chunk_size) (removelast (make_chunks chunk_size ys)).
Proof. intros H. apply make_chunks_go_spec; [exact H|lia]. Qed.

(* ------------------------------------------------------------------ *)
(** ** Truncation after [fix_lons] *)

Close Scope string_scope.


Lemma nonzero_from_first (m : list bool) :
  forall k i, nth_error (nonzero_from k m) 0 = Some i ->
  (k <= i)%nat /\ Forall (fun b => b = false) (firstn (i - k) m) /\
  nth_error m (i - k) = Some true.
Proof.
  induction m as [|b m IH]; intros k i H; cbn [nonzero_from] in H; [discriminate|].
  destruct b.
  - cbn in H. injection H as <-. rewrite Nat.sub_diag. cbn. split; [lia|]. split; [constructor|reflexivity].
  - destruct (IH (S k) i H) as (H1 & H2 & H3).
    replace (i - k)%nat with (S (i - S k)) by lia. cbn [firstn nth_error].
    split; [lia|]. split; [constructor; [reflexivity|exact H2]|exact H3].
Qed.

Lemma lons_firstn {A} (i : nat) (g : grid A) : lons (firstn i g) = firstn i (lons g).
Proof. unfold lons. symmetry. apply firstn_map. Qed.

Lemma lons_skipn {A} (i : nat) (g : grid A) : lons (skipn i g) = skipn i (lons g).
Proof. unfold lons. symmetry. apply skipn_map. Qed.

Lemma skipn_nth_error {X} (i : nat) (xs : list X) (x : X) :
  nth_error xs i = Some x -> exists r, skipn i xs = x :: r.
Proof.
  revert xs. induction i as [|i IH]; intros [|y xs] H; cbn in H |- *; try discriminate.
  - injection H as ->. eexists. reflexivity.
  - exact (IH xs H).
Qed.

(** In the [0:360] branch, the notebook cuts the rolled grid
    [lon_origin:360 0:lon_origin] only when its first longitude lies more
    than 5 degrees above [lon_origin] (the float64 difference); it then
    keeps the longitudes up to the first one below [lon_origin], and raises
    [IndexError] when there is none.  Within 5 degrees, the rolled grid is
    kept whole. *)
Theorem lon_prepare_360 {A} (g g1 : grid A) (sp : subset_params) :
  lon_range sp = 360 -> is_double (lon_origin sp) = true -> fix_lons g sp = Ok g1 ->
  exists v rest, lons g1 = v :: rest /\
  (round64 (v - lon_origin sp) <= 5 -> lon_prepare g sp = Ok g1)%Q /\
  (5 < round64 (v - lon_origin sp) ->
     (Forall (fun l => lon_origin sp <= l) (lons g1) /\ lon_prepare g sp = Exc IndexError) \/
     (exists g2 g3, lon_prepare g sp = Ok g2 /\ g1 = (g2 ++ g3)%list /\ g2 <> [] /\
        Forall (fun l => lon_origin sp <= l <= 360) (lons g2) /\
        exists l3 r3, lons g3 = l3 :: r3 /\ 0 <= l3 < lon_origin sp))%Q.
Proof.
  intros Hr Hd H.
  destruct (fix_lons_360_head g g1 sp Hr H) as (v & rest & Hl & Hm & Hv).
  apply (origin_match_spec _ _ (proj1 Hv) Hd) in Hm as (Ho & Hv1 & Hv2).
  destruct (fix_lons_360_lons g g1 sp Hr H) as [Hrange _].
  assert (Habs : (Qabs (round64 (v - lon_origin sp)) == round64 (v - lon_origin sp))%Q)
    by (apply Qabs_pos, round64_nonneg; lra).
  exists v, rest. split; [exact Hl|].
  unfold lon_prepare. rewrite H. cbn [bind]. unfold truncate_lons. rewrite Hl.
  cbn [py_index nth_error bind]. rewrite <- Hl.
  split.
  - intros Hle. replace (Qlt_bool 5 (Qabs (round64 (v - lon_origin sp)))) with false
      by (symmetry; apply Qlt_bool_false; lra). reflexivity.
  - intros Hgt. replace (Qlt_bool 5 (Qabs (round64 (v - lon_origin sp)))) with true
      by (symmetry; apply Qlt_bool_iff; lra).
    unfold py_index.
    destruct (nth_error (nonzero (map (floor_div_is0 (lon_origin sp)) (lons g1))) 0)
      as [i|] eqn:Ei.
    + right. cbn [bind].
      destruct (nonzero_from_first _ 0 i Ei) as (_ & Hpre & Hat).
      rewrite Nat.sub_0_r in Hpre, Hat.
      rewrite nth_error_map in Hat.
      destruct (nth_error (lons g1) i) as [l3|] eqn:El3; cbn in Hat; [|discriminate].
      injection Hat as Hat.
      assert (Hl3r : (0 <= l3 <= 360)%Q).
      { rewrite Forall_forall in Hrange. apply Hrange. eapply nth_error_In. exact El3. }
      apply floor_div_is0_spec in Hat; [|exact Ho|apply Hl3r|exact Hd].
      exists (firstn i g1), (skipn i g1). split; [reflexivity|].
      split; [symmetry; apply firstn_skipn|]. split.
      * destruct i as [|i].
        -- rewrite Hl in El3. cbn in El3. injection El3 as <-. lra.
        -- destruct g1 as [|x g1']; [discriminate|]. discriminate.
      * split.
        -- rewrite lons_firstn. rewrite firstn_map in Hpre. apply Forall_map in Hpre.
           apply Forall_forall. intros l Hin.
           pose proof (firstn_skipn i (lons g1)) as Hsplit.
           assert (Hin' : In l (lons g1))
             by (rewrite <- Hsplit; apply in_or_app; left; exact Hin).
           rewrite Forall_forall in Hrange, Hpre. specialize (Hrange l Hin').
           specialize (Hpre l Hin).
           destruct (Qlt_le_dec l (lon_origin sp)) as [Hlt|Hge]; [|lra].
           apply (floor_div_is0_spec _ _ Ho (proj1 Hrange) Hd) in Hlt. congruence.
        -- rewrite lons_skipn. destruct (skipn_nth_error i (lons g1) l3 El3) as [r3 Hr3].
           exists l3, r3. split; [exact Hr3|lra].
    + left. split; [|reflexivity].
      assert (Ei' : nonzero (map (floor_div_is0 (lon_origin sp)) (lons g1)) = [])
        by (destruct (nonzero _); [reflexivity|discriminate]).
      unfold nonzero in Ei'. apply nonzero_from_nil in Ei'. clear Ei. rename Ei' into Ei.
      apply Forall_forall. intros l Hin.
      rewrite Forall_forall in Hrange. specialize (Hrange l Hin).
      destruct (Qlt_le_dec l (lon_origin sp)) as [Hlt|Hge]; [|exact Hge].
      exfalso. apply Ei. apply in_map_iff. exists l. split; [|exact Hin].
      apply floor_div_is0_spec; [exact Ho|apply Hrange|exact Hd|exact Hlt].
Qed.

(* ------------------------------------------------------------------ *)
(** ** The model directory *)

Open Scope string_scope.

Definition mkdirs (tr : list effect) : list string :=
  flat_map (fun e => match e with Mkdir d => [d] | _ => [] end) tr.

Lemma path_exists_cons (x : string) (fs : disk) (q : string) :
  path_exists (x :: fs) q = String.eqb q x || path_exists fs q.
Proof. reflexivity. Qed.

Lemma path_exists_filter_other (fs : disk) (p q : string) :
  q <> p -> path_exists (filter (fun r => negb (String.eqb p r)) fs) q = path_exists fs q.
Proof.
  intros Hne. induction fs as [|x fs IH]; [reflexivity|].
  cbn [filter]. destruct (String.eqb p x) eqn:Epx; cbn [negb].
  - apply String.eqb_eq in Epx. subst x. rewrite IH, path_exists_cons.
    replace (String.eqb q p) with false by (symmetry; apply String.eqb_neq; exact Hne).
    reflexivity.
  - rewrite !path_exists_cons, IH. reflexivity.
Qed.

Lemma save_subsets_dir (ow : bool) (dir : string) :
  forall outs fs,
  let r := save_subsets ow dir outs fs in
  ((path_exists fs dir = true \/ writes (fst r) = []) -> mkdirs (fst r) = []) /\
  (path_exists fs dir = false -> writes (fst r) <> [] -> mkdirs (fst r) = [dir]) /\
  (forall q, path_exists fs q = true -> path_exists (snd r) q = true) /\
  Forall (fun p => path_exists (snd r) p = true) (writes (fst r)) /\
  (writes (fst r) <> [] -> path_exists (snd r) dir = true).
Proof.
  induction outs as [|[p e] rest IH]; intros fs r.
  - unfold r. cbn. split; [auto|]. split; [intros _ H; contradiction|].
    split; [auto|]. split; [constructor|intros H; contradiction].
  - unfold r. cbn [save_subsets].
    destruct (negb ow && e).
    + destruct (IH fs) as (H1 & H2 & H3 & H4 & H5). cbn [fst snd mkdirs writes flat_map app].
      fold (mkdirs (fst (save_subsets ow dir rest fs))).
      fold (writes (fst (save_subsets ow dir rest fs))). auto.
    + destruct (path_exists fs dir) eqn:Ed.
      * destruct (IH (p :: fs)) as (H1 & H2 & H3 & H4 & H5). cbn [fst snd app].
        unfold mkdirs, writes. cbn [flat_map app].
        fold (mkdirs (fst (save_subsets ow dir rest (p :: fs)))).
        fold (writes (fst (save_subsets ow dir rest (p :: fs)))).
        assert (Hd : path_exists (p :: fs) dir = true) by (rewrite path_exists_cons, Ed; apply orb_true_r).
        split; [intros _; apply H1; left; exact Hd|].
        split; [discriminate|].
        split; [intros q Hq; apply H3; rewrite path_exists_cons, Hq; apply orb_true_r|].
        split; [|intros _; apply H3; exact Hd].
        constructor; [|exact H4]. apply H3. rewrite path_exists_cons, String.eqb_refl. reflexivity.
      * destruct (IH (p :: dir :: fs)) as (H1 & H2 & H3 & H4 & H5). cbn [fst snd app].
        unfold mkdirs, writes. cbn [flat_map app].
        fold (mkdirs (fst (save_subsets ow dir rest (p :: dir :: fs)))).
        fold (writes (fst (save_subsets ow dir rest (p :: dir :: fs)))).
        assert (Hd : path_exists (p :: dir :: fs) dir = true)
          by (rewrite !path_exists_cons, String.eqb_refl; apply orb_true_r).
        split; [intros [H|H]; discriminate|].
        split; [intros _ _; rewrite (H1 (or_introl Hd)); reflexivity|].
        split; [intros q Hq; apply H3; rewrite !path_exists_cons, Hq, !orb_true_r; reflexivity|].
        split; [|intros _; apply H3; exact Hd].
        constructor; [|exact H4]. apply H3. rewrite path_exists_cons, String.eqb_refl. reflexivity.
Qed.

Lemma remove_existing_dir (outs : list (string * bool)) :
  forall fs tr fs1, remove_existing outs fs = Ok (tr, fs1) ->
  mkdirs tr = [] /\ writes tr = [] /\
  (forall q, ~ In q (map fst outs) -> path_exists fs1 q = path_exists fs q).
Proof.
  induction outs as [|[p e] rest IH]; intros fs tr fs1 H.
  - cbn in H. injection H as <- <-. auto.
  - cbn [remove_existing] in H. destruct e.
    + unfold os_remove in H. destruct (path_exists fs p); [|discriminate].
      cbn [bind] in H.
      destruct (remove_existing rest _) as [[tr' fs']|] eqn:Er; [|discriminate].
      cbn [bind fst snd] in H. injection H as <- <-.
      destruct (IH _ _ _ Er) as (H1 & H2 & H3).
      unfold mkdirs, writes. cbn [flat_map app].
      fold (mkdirs tr'). fold (writes tr'). split; [exact H1|]. split; [exact H2|].
      intros q Hq. cbn [map In] in Hq. rewrite H3 by tauto.
      apply path_exists_filter_other. intros ->. apply Hq. left. reflexivity.
    + destruct (IH _ _ _ H) as (H1 & H2 & H3). split; [exact H1|]. split; [exact H2|].
      intros q Hq. apply H3. intros Hin. apply Hq. right. exact Hin.
Qed.

Lemma writes_app (a b : list effect) : writes (a ++ b) = (writes a ++ writes b)%list.
Proof. unfold writes. apply flat_map_app. Qed.

Lemma mkdirs_app (a b : list effect) : mkdirs (a ++ b) = (mkdirs a ++ mkdirs b)%list.
Proof. unfold mkdirs. apply flat_map_app. Qed.

(** For one dataset URL, the model directory (which is never itself an
    output path) is created at most once: only when it was absent and some
    output gets written.  Afterwards the directory and every written
    output are on disk. *)
Theorem process_url_mkdir (overwrite : bool) (dir label : string) (output_fns : list string)
        (fs : disk) (tr : list effect) (fs' : disk) :
  ~ In dir output_fns ->
  process_url overwrite dir label output_fns fs = Ok (tr, fs') ->
  ((path_exists fs dir = true \/ writes tr = []) -> mkdirs tr = []) /\
  (path_exists fs dir = false -> writes tr <> [] -> mkdirs tr = [dir]) /\
  Forall (fun p => path_exists fs' p = true) (writes tr) /\
  (writes tr <> [] -> path_exists fs' dir = true).
Proof.
  intros Hdir H. unfold process_url in H.
  destruct (negb overwrite && forallb (fun b => b) (map (path_exists fs) output_fns)).
  - injection H as <- <-. cbn. split; [auto|]. split; [intros _ Hw; contradiction|].
    split; [constructor|intros Hw; contradiction].
  - set (outs := combine output_fns (map (path_exists fs) output_fns)) in H.
    assert (Hr1 : exists tr1 fs1,
               (if existsb (fun b => b) (map (path_exists fs) output_fns)
                then if overwrite then remove_existing outs fs else Ok ([], fs)
                else Ok ([], fs)) = Ok (tr1, fs1) /\
               mkdirs tr1 = [] /\ writes tr1 = [] /\ path_exists fs1 dir = path_exists fs dir).
    { destruct (existsb _ _); [destruct overwrite|]; try (exists [], fs; auto; fail).
      destruct (remove_existing outs fs) as [[tr1 fs1]|e] eqn:Er; [|discriminate H].
      destruct (remove_existing_dir outs fs tr1 fs1 Er) as (H1 & H2 & H3).
      exists tr1, fs1. split; [reflexivity|]. split; [exact H1|]. split; [exact H2|].
      apply H3. unfold outs. rewrite combine_map_fst. exact Hdir. }
    destruct Hr1 as (tr1 & fs1 & Hr1 & Hm1 & Hw1 & Hd1).
    rewrite Hr1 in H. cbn [bind fst snd] in H. injection H as <- <-.
    destruct (save_subsets_dir overwrite dir outs fs1) as (H1 & H2 & H3 & H4 & H5).
    rewrite mkdirs_app, writes_app, Hm1, Hw1. cbn [app mkdirs writes flat_map].
    fold (mkdirs (fst (save_subsets overwrite dir outs fs1))).
    fold (writes (fst (save_subsets overwrite dir outs fs1))).
    rewrite <- Hd1. auto.
Qed.

(* ------------------------------------------------------------------ *)
(** ** Output paths *)


Lemma py_split_app (sep : ascii) (x y : string) :
  no_char sep x = true -> py_split sep (x ++ String sep y) = x :: py_split sep y.
Proof.
  induction x as [|c x IH]; intros H.
  - cbn. rewrite Ascii.eqb_refl. reflexivity.
  - unfold no_char in H. cbn [list_ascii_of_string forallb] in H.
    apply andb_true_iff in H as [Hc H]. cbn [String.append py_split].
    rewrite IH by exact H. apply negb_true_iff in Hc. rewrite Hc. reflexivity.
Qed.

Lemma py_split_gs (a b c inst tl : string) :
  no_char "/" a = true -> no_char "/" b = true -> no_char "/" c = true ->
  no_char "/" inst = true ->
  py_split "/" ("gs://" ++ a ++ "/" ++ b ++ "/" ++ c ++ "/" ++ inst ++ "/" ++ tl) =
  "gs:" :: "" :: a :: b :: c :: inst :: py_split "/" tl.
Proof.
  intros Ha Hb Hc Hi.
  change ("gs://" ++ a ++ "/" ++ b ++ "/" ++ c ++ "/" ++ inst ++ "/" ++ tl) with
    ("gs:" ++ String "/" ("" ++ String "/" (a ++ String "/" (b ++ String "/" (c ++ String "/"
       (inst ++ String "/" tl)))))).
  rewrite (py_split_app "/" "gs:") by reflexivity.
  rewrite (py_split_app "/" "") by reflexivity.
  rewrite (py_split_app "/" a) by exact Ha.
  rewrite (py_split_app "/" b) by exact Hb.
  rewrite (py_split_app "/" c) by exact Hc.
  rewrite (py_split_app "/" inst) by exact Hi.
  reflexivity.
Qed.

(** For a store URL [gs://<a>/<b>/<c>/<inst>/<rest>] (in the catalog:
    bucket, MIP era, activity, institution), [url.split('/')[5]] is the
    fourth path segment [inst]: the model directory and the output path
    depend on the URL only through it, so two stores that differ after it
    (another model of the same institution, for instance) get the same
    directory and the same output file. *)
Theorem cmip6_paths_use_fourth_segment (raw_data_dir a b c inst tl1 tl2 : string) (dp : dict)
        (sp : cmip6_subset) :
  no_char "/" a = true -> no_char "/" b = true -> no_char "/" c = true ->
  no_char "/" inst = true ->
  cmip6_model_dir raw_data_dir ("gs://" ++ a ++ "/" ++ b ++ "/" ++ c ++ "/" ++ inst ++ "/" ++ tl1) =
    Ok (raw_data_dir ++ inst ++ "/") /\
  cmip6_output_fn raw_data_dir ("gs://" ++ a ++ "/" ++ b ++ "/" ++ c ++ "/" ++ inst ++ "/" ++ tl1) dp sp =
  cmip6_output_fn raw_data_dir ("gs://" ++ a ++ "/" ++ b ++ "/" ++ c ++ "/" ++ inst ++ "/" ++ tl2) dp sp.
Proof.
  intros Ha Hb Hc Hi. unfold cmip6_model_dir, cmip6_output_fn.
  rewrite !py_split_gs by assumption. split; reflexivity.
Qed.

(* ------------------------------------------------------------------ *)
(** ** Witnesses *)

Lemma make_chunks_partition_witness :
  concat (make_chunks 5 (arange 1979 2015)) = arange 1979 2015 /\
  Forall (fun c => c <> [] /\ (length c <= 5)%nat) (make_chunks 5 (arange 1979 2015)) /\
  Forall (fun c => length c = 5%nat) (removelast (make_chunks 5 (arange 1979 2015))).
Proof. apply (make_chunks_partition 5 (arange 1979 2015)). lia. Defined.

Lemma era5_fn_re_sub_hr_witness :
  (fn0 <- era5_fn cfg_repo "vwt" "hr" years_c9 ;; Ok (re_sub "hr" "day" fn0)) =
  era5_fn cfg_repo "vwt" "day" years_c9.
Proof. apply era5_fn_re_sub_hr; vm_compute; reflexivity. Defined.

Lemma intermediates_match_era5_names_witness :
  In ("/data/ERA5/vwt_day_ERA5_historical_reanalysis_19790101-19881231_WIndOcean.nc",
      [1979])
     (intermediates cfg_repo "vwt"
        [("/data/ERA5/vwt_day_ERA5_historical_reanalysis_19790101-19881231_WIndOcean.nc",
          [1979])]).
Proof.
  apply (intermediates_match_era5_names cfg_repo "vwt" years_c9).
  - vm_compute. reflexivity.
  - left. reflexivity.
Defined.

Lemma era5_var_fresh_download_witness :
  let '(st', e) := era5_var cfg_repo years_c9 (make_chunks 5 years_c9) "vwt" (fresh []) in
  e = None /\
  retrieved (trace st') = (retrieved (trace (fresh [])) ++ make_chunks 5 years_c9)%list /\
  (exists data, In ("/data/ERA5/vwt_day_ERA5_historical_reanalysis_19790101-19881231_WIndOcean.nc",
                    data) (files st') /\ Permutation data (concat (make_chunks 5 years_c9))) /\
  (forall c, In c (make_chunks 5 years_c9) ->
             e_exists (files st') (name_at cfg_repo "vwt" "day" c) = false).
Proof.
  apply era5_var_fresh_download.
  - reflexivity.
  - reflexivity.
  - vm_compute. reflexivity.
  - vm_compute. reflexivity.
  - vm_compute. reflexivity.
  - vm_compute. discriminate.
  - vm_compute. reflexivity.
  - vm_compute. reflexivity.
  - apply nodupb_NoDup. vm_compute. reflexivity.
  - vm_compute. reflexivity.
Defined.


(** The repository's configuration with resampling switched off. *)
Definition cfg_hourly : era5_cfg :=
  {| raw_data_dir := "/data/"; resamp := false; output_freq_name := "day";
     fn_suffix := "_WIndOcean" |}.

Lemma era5_var_no_resamp_fails_witness :
  snd (era5_var cfg_hourly years_c9 (make_chunks 5 years_c9) "vwt" (fresh [])) <> None.
Proof.
  apply era5_var_no_resamp_fails.
  - reflexivity.
  - intros H. vm_compute in H. discriminate H.
  - vm_compute. reflexivity.
  - reflexivity.
  - reflexivity.
Defined.

Lemma era5_run_all_present_witness :
  let st := fresh [("/data/ERA5/vwt_day_ERA5_historical_reanalysis_19790101-19881231_WIndOcean.nc", years_c9);
                   ("/data/ERA5/uwt_day_ERA5_historical_reanalysis_19790101-19881231_WIndOcean.nc", years_c9)] in
  let '(st', e) := era5_run cfg_repo years_c9 (make_chunks 5 years_c9) ["vwt"; "uwt"] st in
  e = None /\ files st' = files st /\ fn1 st' = fn1 st /\ retrieved (trace st') = retrieved (trace st).
Proof.
  apply era5_run_all_present.
  constructor; [|constructor; [|constructor]]; eexists; split; vm_compute; reflexivity.
Defined.

Definition g_trunc : grid unit := [(0, tt); (100, tt); (200, tt); (300, tt)]%Q.

Definition sp360_90' : subset_params := {| lon_range := 360; lon_origin := 90 |}.

Lemma lon_prepare_360_witness :
  exists v rest, lons [(100, tt); (200, tt); (300, tt); (0, tt)]%Q = v :: rest.
Proof.
  destruct (lon_prepare_360 g_trunc [(100, tt); (200, tt); (300, tt); (0, tt)]%Q sp360_90'
              eq_refl ltac:(vm_compute; reflexivity) ltac:(vm_compute; reflexivity))
    as (v & rest & Hl & _).
  exists v, rest. exact Hl.
Defined.

Lemma process_url_mkdir_witness :
  let tr := [Remove "/data/NCAR/pr_a.nc"; Warn "files deleted (OVERWRITE=TRUE)"; LoadGrid;
             Mkdir "/data/NCAR/"; WriteNc "/data/NCAR/pr_a.nc";
             Warn "/data/NCAR/pr_a.nc processed!";
             WriteNc "/data/NCAR/pr_b.nc"; Warn "/data/NCAR/pr_b.nc processed!"] in
  let fs' := ["/data/NCAR/pr_b.nc"; "/data/NCAR/pr_a.nc"; "/data/NCAR/"] in
  ((path_exists ["/data/NCAR/pr_a.nc"] "/data/NCAR/" = true \/ writes tr = []) -> mkdirs tr = []) /\
  (path_exists ["/data/NCAR/pr_a.nc"] "/data/NCAR/" = false -> writes tr <> [] ->
     mkdirs tr = ["/data/NCAR/"]) /\
  Forall (fun p => path_exists fs' p = true) (writes tr) /\
  (writes tr <> [] -> path_exists fs' "/data/NCAR/" = true).
Proof.
  apply (process_url_mkdir true "/data/NCAR/" "pr day NCAR"
           ["/data/NCAR/pr_a.nc"; "/data/NCAR/pr_b.nc"] ["/data/NCAR/pr_a.nc"]).
  - intros [H|[H|[]]]; discriminate H.
  - vm_compute. reflexivity.
Defined.

Lemma cmip6_paths_use_fourth_segment_witness :
  cmip6_model_dir "/data/" ("gs://" ++ "cmip6" ++ "/" ++ "CMIP6" ++ "/" ++ "CMIP" ++ "/" ++ "NCAR" ++ "/" ++
                            "CESM2/historical/r1i1p1f1/day/pr/gn/v20190401/") = Ok ("/data/" ++ "NCAR" ++ "/") /\
  cmip6_output_fn "/data/" ("gs://" ++ "cmip6" ++ "/" ++ "CMIP6" ++ "/" ++ "CMIP" ++ "/" ++ "NCAR" ++ "/" ++
                            "CESM2/historical/r1i1p1f1/day/pr/gn/v20190401/")
    (hd [] data_params_all_repo)
    {| sp_time := [("historical", ["1979-01-01"; "2014-12-31"])]; sp_fn_suffix := "_global" |} =
  cmip6_output_fn "/data/" ("gs://" ++ "cmip6" ++ "/" ++ "CMIP6" ++ "/" ++ "CMIP" ++ "/" ++ "NCAR" ++ "/" ++
                            "CESM2-WACCM/historical/r1i1p1f1/day/pr/gn/v20190415/")
    (hd [] data_params_all_repo)
    {| sp_time := [("historical", ["1979-01-01"; "2014-12-31"])]; sp_fn_suffix := "_global" |}.
Proof. apply cmip6_paths_use_fourth_segment; vm_compute; reflexivity. Defined.

Close Scope string_scope.
